(** * The Map component of hoopmap (src/components/Map.tsx)

    A shallow embedding of the React component [Map]: its two refs, its
    one piece of local state, the initialization effect with its cleanup,
    and the five listeners it registers on the mapbox-gl widget.

    The widget library is an external collaborator.  Every call the
    component makes into it is logged, may raise an exception chosen by a
    fault oracle, and otherwise records its effect in the widget object. *)

From Stdlib Require Import NArith QArith_base List Lia.
From Stdlib Require Import Ascii String DecimalString.
From Stdlib Require DecimalN DecimalPos.
From stdpp Require Import base option list strings gmap.

Close Scope Q_scope.
Open Scope string_scope.
Open Scope list_scope.

(** ** GeoJSON data and the court properties *)

(** A JavaScript [number] that the component only stores and passes on.
    No arithmetic is ever done on coordinates, so exact rationals carry
    the decimal literals of the source without rounding. *)
Definition number := Q.

(** GeoJSON [Position]: a [number[]]. *)
Definition Position := list number.

(** [Number.MAX_SAFE_INTEGER], 2^53 - 1. *)
Definition MAX_SAFE_INTEGER : N := 9007199254740991.

(** A JavaScript [number] that is a non-negative safe integer: up to
    [MAX_SAFE_INTEGER] every integer is a number of its own, and the
    number is exactly the integer it denotes. *)
Record SafeInteger := {
  int_value : N;
  int_safe : (int_value <=? MAX_SAFE_INTEGER)%N = true
}.

(** [interface BasketballCourtProperties] (Map.tsx, lines 11-18).
    [hoops] is a count of hoops: a non-negative safe integer. *)
Module BasketballCourtProperties.
Record t := mk {
  id : string;
  name : string;
  description : string;
  courtType : string;
  hoops : SafeInteger;
  surface : string
}.
End BasketballCourtProperties.
Abbreviation Properties := BasketballCourtProperties.t.

(** GeoJSON [Point] geometry. *)
Record Point := { coordinates : Position }.

Record Feature := {
  geometry : Point;
  properties : Properties
}.

(** [FeatureCollection<Point, BasketballCourtProperties>]. *)
Record FeatureCollection := { features : list Feature }.

(** ** Values exchanged with mapbox-gl *)

(** The [div] the map is mounted in, as a DOM node identity. *)
Inductive HTMLDivElement := DivElement (node : nat).

(** A reference to a [mapboxgl.Map] object: its address in the heap. *)
Abbreviation Handle := nat.

(** A thrown JavaScript value. *)
Inductive Exn :=
| Error (message : string)
| TypeError (message : string).

(** The options object of [new mapboxgl.Map] (lines 39-44). *)
Record MapOptions := {
  container : HTMLDivElement;
  style : string;
  center : Position;
  zoom : number
}.

(** A value of a style property: a number, a string, or an array. *)
#[local] Unset Elimination Schemes.
Inductive StyleValue :=
| SNum (n : number)
| SStr (s : string)
| SArr (items : list StyleValue).
#[local] Set Elimination Schemes.

(** A layer specification as passed to [addLayer]. *)
Record LayerSpec := {
  layer_id : string;
  layer_type : string;
  layer_source : string;
  layer_layout : gmap string StyleValue;
  layer_paint : gmap string StyleValue
}.

(** A source specification as passed to [addSource]. *)
Record SourceSpec := {
  source_type : string;
  source_data : FeatureCollection
}.

(** A [mapboxgl.Popup] under construction. *)
Record Popup := {
  popup_lngLat : option Position;
  popup_html : option string
}.

Inductive Control := NavigationControl.

(** The five closures the component hands to [map.on]. *)
Inductive Listener :=
| onLoad
| onClick
| onMouseEnter
| onMouseLeave
| onError.

(** One registration made with [map.on(type, [layerId,] listener)]. *)
Record Registration := {
  reg_type : string;
  reg_layer : option string;
  reg_listener : Listener
}.

(** The calls the component makes into the library. *)
Inductive Call :=
| NewMap (o : MapOptions)
| On (m : Handle) (r : Registration)
| AddSource (m : Handle) (id : string) (s : SourceSpec)
| AddLayer (m : Handle) (l : LayerSpec)
| NewPopup
| SetLngLat (p : Popup) (c : Position)
| SetHTML (p : Popup) (html : string)
| AddTo (p : Popup) (m : Handle)
| GetCanvas (m : Handle)
| NewNavigationControl
| AddControl (m : Handle) (c : Control) (position : string)
| Remove (m : Handle).

(** What the library holds for one [mapboxgl.Map] instance. *)
Record MapObj := {
  obj_options : MapOptions;
  obj_sources : list (string * SourceSpec);
  obj_layers : list LayerSpec;
  obj_listeners : list Registration;
  obj_controls : list (Control * string);
  obj_popups : list Popup;
  obj_cursor : string;
  obj_removed : bool
}.

(** A line written to the console. *)
Inductive LogEntry :=
| ConsoleLog (text : string)
| ConsoleError (text : string) (e : Exn).

(** ** The store

    [accessToken] is [mapboxgl.accessToken]; [typedBasketballCourts] is
    the module-level collection object; [mapContainer_current] and
    [map_current] are the two refs; [mapError] is the [useState] cell.
    [heap], [calls] and [console] belong to the environment. *)
Record State := mkState {
  accessToken : string;
  typedBasketballCourts : FeatureCollection;
  mapContainer_current : option HTMLDivElement;
  map_current : option Handle;
  mapError : option string;
  heap : list MapObj;
  calls : list Call;
  console : list LogEntry
}.

Definition set_mapContainer_current (v : option HTMLDivElement) (st : State) : State :=
  mkState (accessToken st) (typedBasketballCourts st) v (map_current st)
          (mapError st) (heap st) (calls st) (console st).

Definition set_map_current (v : option Handle) (st : State) : State :=
  mkState (accessToken st) (typedBasketballCourts st) (mapContainer_current st) v
          (mapError st) (heap st) (calls st) (console st).

Definition set_mapError (v : option string) (st : State) : State :=
  mkState (accessToken st) (typedBasketballCourts st) (mapContainer_current st)
          (map_current st) v (heap st) (calls st) (console st).

Definition set_heap (v : list MapObj) (st : State) : State :=
  mkState (accessToken st) (typedBasketballCourts st) (mapContainer_current st)
          (map_current st) (mapError st) v (calls st) (console st).

Definition set_calls (v : list Call) (st : State) : State :=
  mkState (accessToken st) (typedBasketballCourts st) (mapContainer_current st)
          (map_current st) (mapError st) (heap st) v (console st).

Definition set_console (v : list LogEntry) (st : State) : State :=
  mkState (accessToken st) (typedBasketballCourts st) (mapContainer_current st)
          (map_current st) (mapError st) (heap st) (calls st) v.

(** Line 8: [import.meta.env.VITE_MAPBOX_ACCESS_TOKEN || '']. *)
Definition accessToken_of_env (VITE_MAPBOX_ACCESS_TOKEN : option string) : string :=
  match VITE_MAPBOX_ACCESS_TOKEN with
  | Some s => if String.eqb s "" then "" else s
  | None => ""
  end.

(** The store when the module has been evaluated and the component has
    rendered for the first time: [useRef(null)] twice, [useState(null)]. *)
Definition initial_state (env : option string) (courts : FeatureCollection) : State :=
  mkState (accessToken_of_env env) courts None None None [] [] [].

(** ** Computations: state and exceptions *)

Inductive Completion (A : Type) :=
| Normal (a : A)
| Throw (e : Exn).
Arguments Normal {A} a.
Arguments Throw {A} e.

Definition M (A : Type) := State -> Completion A * State.

Definition ret {A} (a : A) : M A := fun st => (Normal a, st).

Definition bind {A B} (m : M A) (k : A -> M B) : M B :=
  fun st =>
    match m st with
    | (Normal a, st1) => k a st1
    | (Throw e, st1) => (Throw e, st1)
    end.

(** [try { body } catch (error) { handler }]. *)
Definition try_catch {A} (body : M A) (handler : Exn -> M A) : M A :=
  fun st =>
    match body st with
    | (Normal a, st1) => (Normal a, st1)
    | (Throw e, st1) => handler e st1
    end.

Definition read {A} (f : State -> A) : M A := fun st => (Normal (f st), st).

Definition modify (f : State -> State) : M unit := fun st => (Normal tt, f st).

Declare Scope comp_scope.
Delimit Scope comp_scope with comp.
Notation "x <- m ;; k" := (bind m (fun x => k))
  (at level 100, m at next level, right associativity) : comp_scope.
Notation "m ;;; k" := (bind m (fun _ => k))
  (at level 100, right associativity) : comp_scope.
Open Scope comp_scope.

(** JavaScript truthiness of a string. *)
Definition truthy (s : string) : bool := negb (String.eqb s "").

(** [Array.prototype.slice(start, end)] and the argument-free [slice()]. *)
Definition slice_range {A} (start stop : nat) (l : list A) : list A :=
  take (stop - start) (drop start l).
Definition slice {A} (l : list A) : list A := slice_range 0 (length l) l.

(** [String(n)], as a template literal renders a number, for a
    non-negative safe integer: its decimal digits.  The bound is part of
    the type: beyond it a number no longer denotes every integer, and
    from 10^21 on ECMAScript prints an exponent. *)
Definition Number_toString (n : SafeInteger) : string :=
  NilZero.string_of_uint (N.to_uint (int_value n)).

(** ** The widget library, as the component sees it *)

Definition fresh_map (o : MapOptions) : MapObj :=
  {| obj_options := o; obj_sources := []; obj_layers := []; obj_listeners := [];
     obj_controls := []; obj_popups := []; obj_cursor := ""; obj_removed := false |}.

Definition push_source (id : string) (s : SourceSpec) (o : MapObj) : MapObj :=
  {| obj_options := obj_options o; obj_sources := obj_sources o ++ [(id, s)];
     obj_layers := obj_layers o; obj_listeners := obj_listeners o;
     obj_controls := obj_controls o; obj_popups := obj_popups o;
     obj_cursor := obj_cursor o; obj_removed := obj_removed o |}.

Definition push_layer (l : LayerSpec) (o : MapObj) : MapObj :=
  {| obj_options := obj_options o; obj_sources := obj_sources o;
     obj_layers := obj_layers o ++ [l]; obj_listeners := obj_listeners o;
     obj_controls := obj_controls o; obj_popups := obj_popups o;
     obj_cursor := obj_cursor o; obj_removed := obj_removed o |}.

Definition push_listener (r : Registration) (o : MapObj) : MapObj :=
  {| obj_options := obj_options o; obj_sources := obj_sources o;
     obj_layers := obj_layers o; obj_listeners := obj_listeners o ++ [r];
     obj_controls := obj_controls o; obj_popups := obj_popups o;
     obj_cursor := obj_cursor o; obj_removed := obj_removed o |}.

Definition push_control (c : Control) (position : string) (o : MapObj) : MapObj :=
  {| obj_options := obj_options o; obj_sources := obj_sources o;
     obj_layers := obj_layers o; obj_listeners := obj_listeners o;
     obj_controls := obj_controls o ++ [(c, position)]; obj_popups := obj_popups o;
     obj_cursor := obj_cursor o; obj_removed := obj_removed o |}.

Definition push_popup (p : Popup) (o : MapObj) : MapObj :=
  {| obj_options := obj_options o; obj_sources := obj_sources o;
     obj_layers := obj_layers o; obj_listeners := obj_listeners o;
     obj_controls := obj_controls o; obj_popups := obj_popups o ++ [p];
     obj_cursor := obj_cursor o; obj_removed := obj_removed o |}.

Definition with_cursor (c : string) (o : MapObj) : MapObj :=
  {| obj_options := obj_options o; obj_sources := obj_sources o;
     obj_layers := obj_layers o; obj_listeners := obj_listeners o;
     obj_controls := obj_controls o; obj_popups := obj_popups o;
     obj_cursor := c; obj_removed := obj_removed o |}.

Definition mark_removed (o : MapObj) : MapObj :=
  {| obj_options := obj_options o; obj_sources := obj_sources o;
     obj_layers := obj_layers o; obj_listeners := obj_listeners o;
     obj_controls := obj_controls o; obj_popups := obj_popups o;
     obj_cursor := obj_cursor o; obj_removed := true |}.

(** In-place update of the object a handle refers to.  A handle is only
    ever obtained from [new mapboxgl.Map], so it is always in range (see
    [run_handle_in_heap]); out of range the update would do nothing. *)
Definition update_obj (h : Handle) (f : MapObj -> MapObj) : M unit :=
  modify (fun st => set_heap (alter f h (heap st)) st).

(** [setMapError(msg)]. *)
Definition setMapError (msg : string) : M unit :=
  modify (set_mapError (Some msg)).

Definition console_log (text : string) : M unit :=
  modify (fun st => set_console (console st ++ [ConsoleLog text]) st).

Definition console_error (text : string) (e : Exn) : M unit :=
  modify (fun st => set_console (console st ++ [ConsoleError text e]) st).

(** [map.current.f(...)]: reading a member of [null] raises a TypeError. *)
Definition map_current_deref : M Handle :=
  fun st =>
    match map_current st with
    | Some h => (Normal h, st)
    | None => (Throw (TypeError "Cannot read properties of null"), st)
    end.

(** The event object of a layer click; [features] may be undefined. *)
Record MapMouseEvent := { e_features : option (list Feature) }.

(** What an effect hands back to React: [undefined] or its cleanup. *)
Inductive Destructor := Cleanup.

Section Library.

(** The fault oracle: given the calls made so far and the call being
    made, the exception it raises, if any. *)
Variable fault : list Call -> Call -> option Exn.

(** Entering the library: the call is logged, then it raises or returns. *)
Definition libcall (c : Call) : M unit :=
  fun st =>
    let st1 := set_calls (calls st ++ [c]) st in
    match fault (calls st) c with
    | Some e => (Throw e, st1)
    | None => (Normal tt, st1)
    end.

Definition new_Map (o : MapOptions) : M Handle :=
  libcall (NewMap o) ;;;
  h <- read (fun st => length (heap st)) ;;
  modify (fun st => set_heap (heap st ++ [fresh_map o]) st) ;;;
  ret h.

Definition on (h : Handle) (type : string) (layer : option string) (l : Listener) : M unit :=
  let r := {| reg_type := type; reg_layer := layer; reg_listener := l |} in
  libcall (On h r) ;;;
  update_obj h (push_listener r).

Definition addSource (h : Handle) (id : string) (s : SourceSpec) : M unit :=
  libcall (AddSource h id s) ;;;
  update_obj h (push_source id s).

Definition addLayer (h : Handle) (l : LayerSpec) : M unit :=
  libcall (AddLayer h l) ;;;
  update_obj h (push_layer l).

Definition new_Popup : M Popup :=
  libcall NewPopup ;;;
  ret {| popup_lngLat := None; popup_html := None |}.

Definition setLngLat (p : Popup) (c : Position) : M Popup :=
  libcall (SetLngLat p c) ;;;
  ret {| popup_lngLat := Some c; popup_html := popup_html p |}.

Definition setHTML (p : Popup) (html : string) : M Popup :=
  libcall (SetHTML p html) ;;;
  ret {| popup_lngLat := popup_lngLat p; popup_html := Some html |}.

Definition addTo (p : Popup) (h : Handle) : M Popup :=
  libcall (AddTo p h) ;;;
  update_obj h (push_popup p) ;;;
  ret p.

(** [map.getCanvas()]: the canvas is identified with its map. *)
Definition getCanvas (h : Handle) : M Handle :=
  libcall (GetCanvas h) ;;;
  ret h.

(** [canvas.style.cursor = c]: a plain property assignment. *)
Definition set_style_cursor (canvas : Handle) (c : string) : M unit :=
  update_obj canvas (with_cursor c).

Definition new_NavigationControl : M Control :=
  libcall NewNavigationControl ;;;
  ret NavigationControl.

Definition addControl (h : Handle) (c : Control) (position : string) : M unit :=
  libcall (AddControl h c position) ;;;
  update_obj h (push_control c position).

Definition remove (h : Handle) : M unit :=
  libcall (Remove h) ;;;
  update_obj h mark_removed.

(** ** The component (Map.tsx, lines 23-175) *)

(** Lines 57-67. *)
Definition circleLayer : LayerSpec :=
  {| layer_id := "basketball-courts-layer";
     layer_type := "circle";
     layer_source := "basketball-courts";
     layer_layout := ∅;
     layer_paint := list_to_map
       [ ("circle-radius", SNum 8%Q);
         ("circle-color", SStr "#FF5733");
         ("circle-stroke-width", SNum 2%Q);
         ("circle-stroke-color", SStr "#ffffff") ] |}.

(** Lines 70-85. *)
Definition labelLayer : LayerSpec :=
  {| layer_id := "court-labels";
     layer_type := "symbol";
     layer_source := "basketball-courts";
     layer_layout := list_to_map
       [ ("text-field", SArr [SStr "get"; SStr "name"]);
         ("text-font", SArr [SStr "Open Sans Regular"]);
         ("text-offset", SArr [SNum 0%Q; SNum 1.5%Q]);
         ("text-anchor", SStr "top") ];
     layer_paint := list_to_map
       [ ("text-color", SStr "#333");
         ("text-halo-color", SStr "#fff");
         ("text-halo-width", SNum 1%Q) ] |}.

(** Lines 98-106: the template literal, line breaks and indentation
    included. *)
Definition popupContent (props : Properties) : string :=
    "
                            <h3>" ++ BasketballCourtProperties.name props ++ "</h3>
                            <p>" ++ BasketballCourtProperties.description props ++ "</p>
                            <ul>
                                <li><strong>Type:</strong> " ++ BasketballCourtProperties.courtType props ++ "</li>
                                <li><strong>Hoops:</strong> " ++ Number_toString (BasketballCourtProperties.hoops props) ++ "</li>
                                <li><strong>Surface:</strong> " ++ BasketballCourtProperties.surface props ++ "</li>
                            </ul>
                        ".

(** Lines 88-112: the click listener. *)
Definition click_listener (e : MapMouseEvent) : M unit :=
  m <- read map_current ;;
  match e_features e, m with
  | None, _ => ret tt
  | Some [], _ => ret tt
  | Some (_ :: _), None => ret tt
  | Some (feature :: _), Some _ =>
      let props := properties feature in
      let coordinates := slice (coordinates (geometry feature)) in
      let popupContent := popupContent props in
      p <- new_Popup ;;
      p <- setLngLat p coordinates ;;
      p <- setHTML p popupContent ;;
      target <- map_current_deref ;;
      addTo p target ;;;
      ret tt
  end.

(** Lines 115-117. *)
Definition mouseenter_listener : M unit :=
  m <- read map_current ;;
  match m with
  | Some _ =>
      h <- map_current_deref ;;
      canvas <- getCanvas h ;;
      set_style_cursor canvas "pointer"
  | None => ret tt
  end.

(** Lines 119-121. *)
Definition mouseleave_listener : M unit :=
  m <- read map_current ;;
  match m with
  | Some _ =>
      h <- map_current_deref ;;
      canvas <- getCanvas h ;;
      set_style_cursor canvas ""
  | None => ret tt
  end.

(** Lines 46-123: the load listener. *)
Definition load_listener : M unit :=
  console_log "Map loaded successfully" ;;;
  m <- read map_current ;;
  match m with
  | Some _ =>
      h <- map_current_deref ;;
      data <- read typedBasketballCourts ;;
      addSource h "basketball-courts"
                {| source_type := "geojson"; source_data := data |} ;;;
      h <- map_current_deref ;;
      addLayer h circleLayer ;;;
      h <- map_current_deref ;;
      addLayer h labelLayer ;;;
      h <- map_current_deref ;;
      on h "click" (Some "basketball-courts-layer") onClick ;;;
      h <- map_current_deref ;;
      on h "mouseenter" (Some "basketball-courts-layer") onMouseEnter ;;;
      h <- map_current_deref ;;
      on h "mouseleave" (Some "basketball-courts-layer") onMouseLeave
  | None => ret tt
  end.

(** Lines 125-128: the error listener. *)
Definition error_listener (e : Exn) : M unit :=
  console_error "Map error:" e ;;;
  setMapError "Error loading map".

(** Lines 139-144: the function the effect returns. *)
Definition cleanup : M unit :=
  m <- read map_current ;;
  match m with
  | Some _ =>
      h <- map_current_deref ;;
      remove h ;;;
      modify (set_map_current None)
  | None => ret tt
  end.

(** Lines 39-44: the options of the one map. *)
Definition mapOptions (div : HTMLDivElement) : MapOptions :=
  {| container := div;
     style := "mapbox://styles/mapbox/streets-v12";
     center := [139.7014%Q; 35.6648%Q];
     zoom := 13%Q |}.

(** Lines 39-131: the body of the [try] block. *)
Definition try_body (div : HTMLDivElement) : M unit :=
  h <- new_Map (mapOptions div) ;;
  modify (set_map_current (Some h)) ;;;
  h <- map_current_deref ;;
  on h "load" None onLoad ;;;
  h <- map_current_deref ;;
  on h "error" None onError ;;;
  h <- map_current_deref ;;
  ctl <- new_NavigationControl ;;
  addControl h ctl "top-right".

(** Lines 133-136: the [catch] clause. *)
Definition catch_clause (error : Exn) : M unit :=
  console_error "Error initializing map:" error ;;;
  setMapError "Failed to initialize map".

(** Lines 28-145: the effect. *)
Definition initEffect : M (option Destructor) :=
  m <- read map_current ;;
  match m with
  | Some _ => ret None
  | None =>
      c <- read mapContainer_current ;;
      match c with
      | None => ret None
      | Some div =>
          token <- read accessToken ;;
          if negb (truthy token) then
            setMapError "Mapbox access token is missing. Please check your environment variables." ;;;
            ret None
          else
            try_catch (try_body div) catch_clause ;;;
            ret (Some Cleanup)
      end
  end.

End Library.

(** ** The view (lines 147-174)

    The map [div] is always rendered; the banner is rendered when
    [mapError] is truthy and then shows its text. *)
Record View := {
  view_map_div : bool;
  view_banner : option string
}.

Definition render (st : State) : View :=
  {| view_map_div := true;
     view_banner :=
       match mapError st with
       | Some msg => if truthy msg then Some msg else None
       | None => None
       end |}.

(** ** Events of the widget and of the host *)

Inductive MapEvent :=
| LoadEvent
| ErrorEvent (e : Exn)
| ClickEvent (layer : string) (e : MapMouseEvent)
| MouseEnterEvent (layer : string)
| MouseLeaveEvent (layer : string).

Definition event_type (ev : MapEvent) : string :=
  match ev with
  | LoadEvent => "load"
  | ErrorEvent _ => "error"
  | ClickEvent _ _ => "click"
  | MouseEnterEvent _ => "mouseenter"
  | MouseLeaveEvent _ => "mouseleave"
  end.

Definition event_layer (ev : MapEvent) : option string :=
  match ev with
  | LoadEvent | ErrorEvent _ => None
  | ClickEvent l _ | MouseEnterEvent l | MouseLeaveEvent l => Some l
  end.

Definition option_string_eqb (a b : option string) : bool :=
  match a, b with
  | Some x, Some y => String.eqb x y
  | None, None => true
  | _, _ => false
  end.

Definition registered_for (r : Registration) (ev : MapEvent) : bool :=
  String.eqb (reg_type r) (event_type ev)
  && option_string_eqb (reg_layer r) (event_layer ev).

Section Host.

Variable fault : list Call -> Call -> option Exn.

(** A listener applied to the event it was registered for.  A listener
    never receives an event of another type. *)
Definition call_listener (l : Listener) (ev : MapEvent) : M unit :=
  match l, ev with
  | onLoad, LoadEvent => load_listener fault
  | onClick, ClickEvent _ e => click_listener fault e
  | onMouseEnter, MouseEnterEvent _ => mouseenter_listener fault
  | onMouseLeave, MouseLeaveEvent _ => mouseleave_listener fault
  | onError, ErrorEvent e => error_listener e
  | _, _ => ret tt
  end.

Fixpoint run_listeners (rs : list Registration) (ev : MapEvent) : M unit :=
  match rs with
  | [] => ret tt
  | r :: rs' =>
      (if registered_for r ev then call_listener (reg_listener r) ev else ret tt) ;;;
      run_listeners rs' ev
  end.

(** The widget fires an event: the listeners registered at that moment
    run in registration order; a removed map fires nothing. *)
Definition fire (h : Handle) (ev : MapEvent) : M unit :=
  fun st =>
    match heap st !! h with
    | Some o =>
        if obj_removed o then (Normal tt, st)
        else run_listeners (obj_listeners o) ev st
    | None => (Normal tt, st)
    end.

(** The hosting framework: the store plus the destructor React keeps for
    the effect ([useEffect] with an empty dependency list). *)
Record Mounted := {
  store : State;
  destructor : option Destructor
}.

Inductive Input :=
| Mount (div : HTMLDivElement)
| Unmount
| Rerun
| Fire (h : Handle) (ev : MapEvent).

(** A new instance of the component (lines 24-26): [useRef(null)] for the
    container, [useRef(null)] for the map, [useState(null)] for the
    error.  What belongs to the module (token, collection) and to the
    environment (widgets, call log, console) is not the instance's. *)
Definition new_instance (st : State) : State :=
  set_mapError None (set_map_current None (set_mapContainer_current None st)).

(** Mount: a new instance is created, its container ref is attached to
    the rendered [div], then the effect runs and its result is kept.
    Unmount: the kept destructor runs, then the ref is detached; the
    instance is gone, and the next mount starts from a new one.
    Rerun: the development double invocation of effects on one and the
    same instance -- the kept destructor runs, then the effect runs
    again, state and refs being kept.  An exception escaping a destructor
    or a listener is reported by the runtime and the page goes on. *)
Definition step (i : Input) (w : Mounted) : Mounted :=
  match i with
  | Mount div =>
      match initEffect fault
              (set_mapContainer_current (Some div) (new_instance (store w))) with
      | (Normal d, st) => {| store := st; destructor := d |}
      | (Throw _, st) => {| store := st; destructor := None |}
      end
  | Unmount =>
      let st :=
        match destructor w with
        | Some Cleanup => snd (cleanup fault (store w))
        | None => store w
        end in
      {| store := set_mapContainer_current None st; destructor := None |}
  | Rerun =>
      let st :=
        match destructor w with
        | Some Cleanup => snd (cleanup fault (store w))
        | None => store w
        end in
      match initEffect fault st with
      | (Normal d, st') => {| store := st'; destructor := d |}
      | (Throw _, st') => {| store := st'; destructor := None |}
      end
  | Fire h ev =>
      {| store := snd (fire h ev (store w)); destructor := destructor w |}
  end.

Definition run (inputs : list Input) (w : Mounted) : Mounted :=
  fold_left (fun w i => step i w) inputs w.

End Host.

(** ** Vocabulary of the statements *)

Definition is_NewMap (c : Call) : bool :=
  match c with NewMap _ => true | _ => false end.

Definition is_Remove (c : Call) : bool :=
  match c with Remove _ => true | _ => false end.

Definition is_AddSource (c : Call) : bool :=
  match c with AddSource _ _ _ => true | _ => false end.

Definition is_AddLayer (c : Call) : bool :=
  match c with AddLayer _ _ => true | _ => false end.

Definition is_On (c : Call) : bool :=
  match c with On _ _ => true | _ => false end.

Definition is_popup_call (c : Call) : bool :=
  match c with
  | NewPopup | SetLngLat _ _ | SetHTML _ _ | AddTo _ _ => true
  | _ => false
  end.

(** The calls of the [try] block. *)
Definition is_setup_call (c : Call) : bool :=
  match c with
  | NewMap _ | On _ _ | NewNavigationControl | AddControl _ _ _ => true
  | _ => false
  end.

(** The calls of the load listener. *)
Definition is_overlay_call (c : Call) : bool :=
  match c with
  | AddSource _ _ _ | AddLayer _ _ | On _ _ => true
  | _ => false
  end.

(** How many logged calls satisfy [P]. *)
Definition count_calls (P : Call -> bool) (l : list Call) : nat :=
  length (List.filter P l).

(** The library raises nothing on the calls selected by [P]. *)
Definition quiet (fault : list Call -> Call -> option Exn) (P : Call -> bool) : Prop :=
  forall hist c, P c = true -> fault hist c = None.

(** [needle] occurs in [hay]. *)
Definition Contains (needle hay : string) : Prop :=
  exists pre post, hay = (pre ++ needle ++ post)%string.

(** The listeners the effect registers, and those the load listener adds. *)
Definition mounted_listeners : list Registration :=
  [ {| reg_type := "load"; reg_layer := None; reg_listener := onLoad |};
    {| reg_type := "error"; reg_layer := None; reg_listener := onError |} ].

Definition overlay_listeners : list Registration :=
  [ {| reg_type := "click"; reg_layer := Some "basketball-courts-layer";
       reg_listener := onClick |};
    {| reg_type := "mouseenter"; reg_layer := Some "basketball-courts-layer";
       reg_listener := onMouseEnter |};
    {| reg_type := "mouseleave"; reg_layer := Some "basketball-courts-layer";
       reg_listener := onMouseLeave |} ].

(** The widget object as a run of the effect without exception leaves it. *)
Definition mounted_obj (div : HTMLDivElement) : MapObj :=
  {| obj_options := mapOptions div; obj_sources := []; obj_layers := [];
     obj_listeners := mounted_listeners;
     obj_controls := [(NavigationControl, "top-right")]; obj_popups := [];
     obj_cursor := ""; obj_removed := false |}.

(** Fault oracles used in the examples. *)
Definition no_fault : list Call -> Call -> option Exn := fun _ _ => None.

Definition constructor_fails : list Call -> Call -> option Exn :=
  fun _ c => if is_NewMap c then Some (Error "Failed to initialize WebGL") else None.

Definition addControl_fails : list Call -> Call -> option Exn :=
  fun _ c =>
    match c with
    | AddControl _ _ _ => Some (Error "control rejected")
    | _ => None
    end.

(** Small hoop counts, with the evidence that they are safe integers. *)
Definition no_hoop : SafeInteger := {| int_value := 0; int_safe := eq_refl |}.
Definition two_hoops : SafeInteger := {| int_value := 2; int_safe := eq_refl |}.

Definition sample_courts : FeatureCollection :=
  {| features :=
       [ {| geometry := {| coordinates := [139.7%Q; 35.66%Q] |};
            properties := BasketballCourtProperties.mk
              "court-a" "Court A" "Nice court" "outdoor" two_hoops "asphalt" |} ] |}.

(** What a run of the [try] block that got past the constructor leaves
    behind: one more object, live, referenced by [map.current]; the
    component's other cells are untouched. *)
Record created (div : HTMLDivElement) (st st1 : State) : Prop := {
  created_handle : map_current st1 = Some (length (heap st));
  created_heap : exists obj,
      heap st1 = heap st ++ [obj] /\ obj_removed obj = false /\
      obj_options obj = mapOptions div /\
      obj_sources obj = [] /\ obj_layers obj = [] /\ obj_popups obj = [];
  created_calls : exists rest,
      calls st1 = calls st ++ NewMap (mapOptions div) :: rest /\
      count_calls is_NewMap rest = 0 /\ count_calls is_Remove rest = 0;
  created_token : accessToken st1 = accessToken st;
  created_courts : typedBasketballCourts st1 = typedBasketballCourts st;
  created_container : mapContainer_current st1 = mapContainer_current st;
  created_mapError : mapError st1 = mapError st;
  created_console : console st1 = console st
}.

(** A computation whose final store is related by [R] to its initial
    store, however it completes. *)
Definition respects (R : State -> State -> Prop) {A} (m : M A) : Prop :=
  forall st, R st (snd (m st)).

(** The collection object is the same in both stores. *)
Definition same_courts (st st' : State) : Prop :=
  typedBasketballCourts st' = typedBasketballCourts st.

(** The handle is the same and every object is as live as it was. *)
Definition same_liveness (st st' : State) : Prop :=
  map_current st' = map_current st /\
  forall h, obj_removed <$> heap st' !! h = obj_removed <$> heap st !! h.

(** [map.current], when not null, refers to an object of the heap. *)
Definition handle_in_heap (st : State) : Prop :=
  forall h, map_current st = Some h -> is_Some (heap st !! h).

(** Every object that is not removed is the one [map.current] refers to. *)
Definition live_is_current (st : State) : Prop :=
  forall h obj, heap st !! h = Some obj -> obj_removed obj = false ->
                map_current st = Some h.

(** ** Vocabulary of the further properties *)

(** The three messages the component can store (lines 34, 127, 135). *)
Definition error_messages : list string :=
  [ "Mapbox access token is missing. Please check your environment variables.";
    "Failed to initialize map";
    "Error loading map" ].

(** The error state is null or one of the three messages. *)
Definition known_error (o : option string) : Prop :=
  match o with
  | None => True
  | Some m => In m error_messages
  end.

(** From [st] to [st'] the error state was kept or replaced by one of
    the three messages: it is never cleared. *)
Definition error_step (st st' : State) : Prop :=
  mapError st' = mapError st \/
  exists m, mapError st' = Some m /\ In m error_messages.

(** The error state is the same in both stores. *)
Definition same_mapError (st st' : State) : Prop :=
  mapError st' = mapError st.

(** The handle, the container ref, the token and the number of widget
    objects are the same, and every object is as live as it was. *)
Definition same_lifecycle (st st' : State) : Prop :=
  same_liveness st st' /\
  mapContainer_current st' = mapContainer_current st /\
  accessToken st' = accessToken st /\
  length (heap st') = length (heap st).

(** [map.current], when not null, refers to an object that is not removed. *)
Definition handle_is_live (st : State) : Prop :=
  forall h, map_current st = Some h ->
            exists obj, heap st !! h = Some obj /\ obj_removed obj = false.

(** Every widget object has been removed. *)
Definition all_removed (st : State) : Prop :=
  forall h obj, heap st !! h = Some obj -> obj_removed obj = true.

(** The inputs that stay within one instance of the component: widget
    events and re-runs of the effect.  (A mount creates a new instance.) *)
Definition within_instance (i : Input) : Prop :=
  match i with
  | Fire _ _ | Rerun => True
  | Mount _ | Unmount => False
  end.

(** A sequence of widget events as inputs of the host. *)
Definition fires (evs : list (Handle * MapEvent)) : list Input :=
  List.map (fun p => Fire (fst p) (snd p)) evs.

Definition is_GetCanvas (c : Call) : bool :=
  match c with GetCanvas _ => true | _ => false end.

(** The source specification the load listener registers (lines 51-54). *)
Definition courts_source (data : FeatureCollection) : SourceSpec :=
  {| source_type := "geojson"; source_data := data |}.

(** When React holds no destructor, no widget is referenced. *)
Definition destructor_covers (w : Mounted) : Prop :=
  forall h, map_current (store w) = Some h -> destructor w = Some Cleanup.

Definition addSource_fails : list Call -> Call -> option Exn :=
  fun _ c => if is_AddSource c then Some (Error "source rejected") else None.

(** ** The rendering of a hoop count *)

(** The string of a safe integer reads back as that integer: it is its
    decimal numeral. *)
Lemma Number_toString_reads_back (n : SafeInteger) :
  option_map N.of_uint (NilZero.uint_of_string (Number_toString n)) = Some (int_value n).
Proof.
  unfold Number_toString.
  rewrite NilZero.usu.
  - cbn. rewrite DecimalN.Unsigned.of_to. reflexivity.
  - destruct (int_value n) as [| p]; [discriminate |].
    cbn. apply DecimalPos.Unsigned.to_uint_nonnil.
Qed.

Example Number_toString_examples :
  Number_toString no_hoop = "0" /\
  Number_toString two_hoops = "2" /\
  Number_toString {| int_value := MAX_SAFE_INTEGER; int_safe := eq_refl |}
  = "9007199254740991".
Proof. repeat split. Qed.

(** ** Basic facts about the computations *)

Lemma accessToken_absent : accessToken_of_env None = "".
Proof. reflexivity. Qed.

Lemma accessToken_empty_env : accessToken_of_env (Some "") = "".
Proof. reflexivity. Qed.

Lemma accessToken_present (s : string) :
  s <> "" -> accessToken_of_env (Some s) = s.
Proof.
  intros Hs. unfold accessToken_of_env.
  destruct (String.eqb_spec s ""); [contradiction | reflexivity].
Qed.

Lemma truthy_false_iff (s : string) : truthy s = false <-> s = "".
Proof.
  unfold truthy. destruct (String.eqb_spec s ""); simpl; split; intros; congruence.
Qed.

Lemma truthy_true_iff (s : string) : truthy s = true <-> s <> "".
Proof.
  unfold truthy. destruct (String.eqb_spec s ""); simpl; split; intros; congruence.
Qed.

Lemma slice_all {A} (l : list A) : slice l = l.
Proof.
  unfold slice, slice_range. rewrite drop_0, Nat.sub_0_r. apply firstn_all.
Qed.

Lemma count_calls_app (P : Call -> bool) (l1 l2 : list Call) :
  count_calls P (l1 ++ l2) = count_calls P l1 + count_calls P l2.
Proof. unfold count_calls. rewrite List.filter_app, length_app. reflexivity. Qed.

(** ** The effect: guards *)

Section EffectGuards.

Variable fault : list Call -> Call -> option Exn.

(** With a live handle the effect is the identity on the store and hands
    React no destructor. *)
Lemma initEffect_live_handle (st : State) (h : Handle) :
  map_current st = Some h -> initEffect fault st = (Normal None, st).
Proof.
  intros Hm. unfold initEffect, bind, read, ret. rewrite Hm. reflexivity.
Qed.

Lemma initEffect_no_container (st : State) :
  mapContainer_current st = None -> initEffect fault st = (Normal None, st).
Proof.
  intros Hc. unfold initEffect, bind, read, ret.
  destruct (map_current st); [reflexivity |]. rewrite Hc. reflexivity.
Qed.

Lemma initEffect_no_token (st : State) (div : HTMLDivElement) :
  map_current st = None ->
  mapContainer_current st = Some div ->
  accessToken st = "" ->
  initEffect fault st =
  (Normal None,
   set_mapError
     (Some "Mapbox access token is missing. Please check your environment variables.")
     st).
Proof.
  intros Hm Hc Ht. unfold initEffect, bind, read, ret, setMapError, modify.
  rewrite Hm, Hc, Ht. reflexivity.
Qed.

End EffectGuards.

(** ** The effect: creation *)

Lemma alter_snoc {A} (f : A -> A) (l : list A) (x : A) :
  alter f (length l) (l ++ [x]) = l ++ [f x].
Proof.
  rewrite alter_app_r_alt by lia. rewrite Nat.sub_diag. reflexivity.
Qed.

Ltac split_fault :=
  match goal with
  | |- context [match ?f ?hist ?c with Some _ => _ | None => _ end] =>
      destruct (f hist c) eqn:?
  end.

Section EffectCreation.

Variable fault : list Call -> Call -> option Exn.

Lemma try_body_constructor_throws (st : State) (div : HTMLDivElement) (e : Exn) :
  fault (calls st) (NewMap (mapOptions div)) = Some e ->
  try_body fault div st
  = (Throw e, set_calls (calls st ++ [NewMap (mapOptions div)]) st).
Proof.
  intros Hf. unfold try_body, new_Map, libcall, bind. rewrite Hf. reflexivity.
Qed.

Lemma try_body_constructor_returns (st : State) (div : HTMLDivElement) :
  fault (calls st) (NewMap (mapOptions div)) = None ->
  exists out st1, try_body fault div st = (out, st1) /\ created div st st1.
Proof.
  intros Hf.
  unfold try_body, new_Map, on, new_NavigationControl, addControl, update_obj,
    map_current_deref, libcall, bind, read, modify, ret.
  rewrite Hf. cbn [calls heap map_current set_calls set_heap set_map_current].
  repeat (split_fault; cbn [calls heap map_current set_calls set_heap set_map_current]);
    do 2 eexists; (split; [reflexivity |]);
    (split; cbn [calls heap map_current set_calls set_heap set_map_current
                 accessToken typedBasketballCourts mapContainer_current mapError console];
     try reflexivity);
    rewrite ?alter_snoc;
    try (eexists; split; [reflexivity | repeat split; reflexivity]);
    try (eexists; split;
         [rewrite <- ?app_assoc; cbn [app]; reflexivity | split; reflexivity]).
Qed.

End EffectCreation.

Section EffectOutcome.

Variable fault : list Call -> Call -> option Exn.

(** The effect always completes normally. *)
Lemma initEffect_total (st : State) :
  exists r st', initEffect fault st = (Normal r, st').
Proof.
  unfold initEffect, bind, read, ret, try_catch, catch_clause, setMapError,
    console_error, modify.
  destruct (map_current st); [eauto |].
  destruct (mapContainer_current st) as [div |]; [| eauto].
  destruct (truthy (accessToken st)); cbn [negb]; [| eauto].
  destruct (try_body fault div st) as [[[] | e] st1]; eauto.
Qed.

(** Past the guards, the effect is the [try] statement followed by the
    return of the destructor. *)
Lemma initEffect_try (st : State) (div : HTMLDivElement) :
  map_current st = None ->
  mapContainer_current st = Some div ->
  accessToken st <> "" ->
  initEffect fault st =
  match try_body fault div st with
  | (Normal _, st1) => (Normal (Some Cleanup), st1)
  | (Throw e, st1) =>
      (Normal (Some Cleanup),
       set_mapError (Some "Failed to initialize map")
         (set_console (console st1 ++ [ConsoleError "Error initializing map:" e]) st1))
  end.
Proof.
  intros Hm Hc Ht. apply truthy_true_iff in Ht.
  unfold initEffect, bind, read, ret, try_catch, catch_clause, setMapError,
    console_error, modify.
  rewrite Hm, Hc, Ht. cbn [negb].
  destruct (try_body fault div st) as [[[] | e] st1]; reflexivity.
Qed.

End EffectOutcome.

(** ** Strings and proof steps *)

Lemma string_append_assoc (a b c : string) :
  ((a ++ b) ++ c = a ++ (b ++ c))%string.
Proof.
  induction a as [| ch a IH]; [reflexivity |].
  change (String ch ((a ++ b) ++ c) = String ch (a ++ (b ++ c)))%string.
  f_equal. exact IH.
Qed.

Lemma Contains_here (needle rest : string) : Contains needle (needle ++ rest)%string.
Proof. exists ""%string, rest. reflexivity. Qed.

Lemma Contains_skip (needle pre hay : string) :
  Contains needle hay -> Contains needle (pre ++ hay)%string.
Proof.
  intros (a & b & ->). exists (pre ++ a)%string, b.
  rewrite string_append_assoc. reflexivity.
Qed.

Create HintDb contains.
#[local] Hint Resolve Contains_here Contains_skip : contains.

Ltac no_fault_here Hq :=
  repeat match goal with
  | |- context [match ?f ?hist ?c with Some _ => _ | None => _ end] =>
      rewrite (Hq hist c eq_refl)
  end.

Ltac state_simpl :=
  cbn [calls heap map_current mapError console accessToken typedBasketballCourts
       mapContainer_current
       set_calls set_heap set_map_current set_mapError set_console
       set_mapContainer_current popup_lngLat popup_html fst snd].

(** ** The cleanup *)

Section CleanupFacts.

Variable fault : list Call -> Call -> option Exn.

Lemma cleanup_null_handle (st : State) :
  map_current st = None -> cleanup fault st = (Normal tt, st).
Proof.
  intros Hm. unfold cleanup, bind, read, ret. rewrite Hm. reflexivity.
Qed.

Lemma cleanup_live_handle (st : State) (h : Handle) :
  map_current st = Some h ->
  fault (calls st) (Remove h) = None ->
  cleanup fault st
  = (Normal tt,
     set_map_current None
       (set_heap (alter mark_removed h (heap st))
          (set_calls (calls st ++ [Remove h]) st))).
Proof.
  intros Hm Hf.
  unfold cleanup, remove, update_obj, map_current_deref, libcall, bind, read, modify, ret.
  rewrite Hm. cbn beta iota. rewrite Hm, Hf. reflexivity.
Qed.

End CleanupFacts.


(** ** Frame reasoning for the listeners

    The listeners only log, set the error state, append to the call log
    and update widget objects without touching their [removed] flag.  Any
    preorder on stores that those four kinds of write respect is therefore
    respected by every listener and by the dispatch of any event. *)

Create HintDb frame.

Section Frames.

Variable fault : list Call -> Call -> option Exn.
Variable R : State -> State -> Prop.

Hypothesis R_refl : forall st, R st st.
Hypothesis R_trans : forall st1 st2 st3, R st1 st2 -> R st2 st3 -> R st1 st3.
Hypothesis R_calls : forall st v, R st (set_calls v st).
Hypothesis R_console : forall st v, R st (set_console v st).
Hypothesis R_mapError : forall st v, R st (set_mapError v st).
Hypothesis R_alter : forall st h f,
  (forall o, obj_removed (f o) = obj_removed o) ->
  R st (set_heap (alter f h (heap st)) st).

Lemma respects_ret {A} (a : A) : respects R (ret a).
Proof. intros st. apply R_refl. Qed.

Lemma respects_read {A} (f : State -> A) : respects R (read f).
Proof. intros st. apply R_refl. Qed.

Lemma respects_bind {A B} (m : M A) (k : A -> M B) :
  respects R m -> (forall a, respects R (k a)) -> respects R (bind m k).
Proof.
  intros Hm Hk st. unfold bind. specialize (Hm st).
  destruct (m st) as [[a | e] st1]; cbn [snd] in *.
  - eapply R_trans; [exact Hm | apply Hk].
  - exact Hm.
Qed.

Lemma respects_deref : respects R map_current_deref.
Proof.
  intros st. unfold map_current_deref. destruct (map_current st); apply R_refl.
Qed.

Lemma respects_libcall (c : Call) : respects R (libcall fault c).
Proof.
  intros st. unfold libcall. destruct (fault (calls st) c); apply R_calls.
Qed.

Lemma respects_update_obj (h : Handle) (f : MapObj -> MapObj) :
  (forall o, obj_removed (f o) = obj_removed o) -> respects R (update_obj h f).
Proof. intros Hf st. apply R_alter, Hf. Qed.

Lemma respects_setMapError (msg : string) : respects R (setMapError msg).
Proof. intros st. apply R_mapError. Qed.

Lemma respects_console_log (text : string) : respects R (console_log text).
Proof. intros st. apply R_console. Qed.

Lemma respects_console_error (text : string) (e : Exn) :
  respects R (console_error text e).
Proof. intros st. apply R_console. Qed.

#[local] Hint Resolve respects_ret respects_read respects_deref respects_libcall
  respects_setMapError respects_console_log respects_console_error : frame.

Ltac frame :=
  repeat match goal with
  | |- respects _ (bind _ _) => apply respects_bind
  | |- forall _, respects _ _ => intro
  | |- respects _ (update_obj _ _) => apply respects_update_obj; intros []; reflexivity
  | |- respects _ (match ?x with _ => _ end) => destruct x
  | |- respects _ _ => solve [auto with frame]
  end.

Lemma respects_on (h : Handle) (type : string) (layer : option string) (l : Listener) :
  respects R (on fault h type layer l).
Proof. unfold on. frame. Qed.

Lemma respects_addSource (h : Handle) (id : string) (s : SourceSpec) :
  respects R (addSource fault h id s).
Proof. unfold addSource. frame. Qed.

Lemma respects_addLayer (h : Handle) (l : LayerSpec) : respects R (addLayer fault h l).
Proof. unfold addLayer. frame. Qed.

Lemma respects_new_Popup : respects R (new_Popup fault).
Proof. unfold new_Popup. frame. Qed.

Lemma respects_setLngLat (p : Popup) (c : Position) : respects R (setLngLat fault p c).
Proof. unfold setLngLat. frame. Qed.

Lemma respects_setHTML (p : Popup) (html : string) : respects R (setHTML fault p html).
Proof. unfold setHTML. frame. Qed.

Lemma respects_addTo (p : Popup) (h : Handle) : respects R (addTo fault p h).
Proof. unfold addTo. frame. Qed.

Lemma respects_getCanvas (h : Handle) : respects R (getCanvas fault h).
Proof. unfold getCanvas. frame. Qed.

Lemma respects_set_style_cursor (canvas : Handle) (c : string) :
  respects R (set_style_cursor canvas c).
Proof. unfold set_style_cursor. frame. Qed.

#[local] Hint Resolve respects_on respects_addSource respects_addLayer
  respects_new_Popup respects_setLngLat respects_setHTML respects_addTo
  respects_getCanvas respects_set_style_cursor : frame.

Lemma respects_click_listener (e : MapMouseEvent) : respects R (click_listener fault e).
Proof.
  unfold click_listener. apply respects_bind; [apply respects_read |]. intros m.
  destruct (e_features e) as [[| f fs] |], m; frame.
Qed.

Lemma respects_mouseenter_listener : respects R (mouseenter_listener fault).
Proof. unfold mouseenter_listener. frame. Qed.

Lemma respects_mouseleave_listener : respects R (mouseleave_listener fault).
Proof. unfold mouseleave_listener. frame. Qed.

Lemma respects_load_listener : respects R (load_listener fault).
Proof. unfold load_listener. frame. Qed.

Lemma respects_error_listener (e : Exn) : respects R (error_listener e).
Proof. unfold error_listener. frame. Qed.

Lemma respects_call_listener (l : Listener) (ev : MapEvent) :
  respects R (call_listener fault l ev).
Proof.
  destruct l, ev; cbn [call_listener];
    auto using respects_ret, respects_click_listener, respects_mouseenter_listener,
      respects_mouseleave_listener, respects_load_listener, respects_error_listener.
Qed.

Lemma respects_run_listeners (rs : list Registration) (ev : MapEvent) :
  respects R (run_listeners fault rs ev).
Proof.
  induction rs as [| r rs IH]; cbn [run_listeners]; [apply respects_ret |].
  apply respects_bind; [| intros _; exact IH].
  destruct (registered_for r ev); [apply respects_call_listener | apply respects_ret].
Qed.

Lemma respects_fire (h : Handle) (ev : MapEvent) : respects R (fire fault h ev).
Proof.
  intros st. unfold fire. destruct (heap st !! h) as [o |]; [| apply R_refl].
  destruct (obj_removed o); [apply R_refl | apply respects_run_listeners].
Qed.

End Frames.

(** ** Two instances of the frame: the collection, and liveness *)

Section FrameInstances.

Variable fault : list Call -> Call -> option Exn.

Ltac courts_frame := unfold same_courts; intros; try reflexivity; congruence.

Lemma click_same_courts (e : MapMouseEvent) :
  respects same_courts (click_listener fault e).
Proof. apply respects_click_listener; courts_frame. Qed.

Lemma mouseenter_same_courts : respects same_courts (mouseenter_listener fault).
Proof. apply respects_mouseenter_listener; courts_frame. Qed.

Lemma mouseleave_same_courts : respects same_courts (mouseleave_listener fault).
Proof. apply respects_mouseleave_listener; courts_frame. Qed.

Lemma load_same_courts : respects same_courts (load_listener fault).
Proof. apply respects_load_listener; courts_frame. Qed.

Lemma error_same_courts (e : Exn) : respects same_courts (error_listener e).
Proof. apply respects_error_listener; courts_frame. Qed.

Lemma fire_same_courts (h : Handle) (ev : MapEvent) :
  respects same_courts (fire fault h ev).
Proof. apply respects_fire; courts_frame. Qed.

Lemma same_liveness_alter (st : State) (h : Handle) (f : MapObj -> MapObj) :
  (forall o, obj_removed (f o) = obj_removed o) ->
  same_liveness st (set_heap (alter f h (heap st)) st).
Proof.
  intros Hf. split; [reflexivity |]. intros h'. cbn [heap set_heap].
  destruct (decide (h = h')) as [-> | Hne].
  - rewrite list_lookup_alter_eq. destruct (heap st !! h'); cbn; [rewrite Hf |]; reflexivity.
  - rewrite list_lookup_alter_ne by exact Hne. reflexivity.
Qed.

Lemma fire_same_liveness (h : Handle) (ev : MapEvent) :
  respects same_liveness (fire fault h ev).
Proof.
  apply respects_fire.
  - intros st. split; reflexivity.
  - intros st1 st2 st3 [H1 H1'] [H2 H2']. split; [congruence |].
    intros h'. rewrite H2', H1'. reflexivity.
  - intros st v. split; reflexivity.
  - intros st v. split; reflexivity.
  - intros st v. split; reflexivity.
  - apply same_liveness_alter.
Qed.

Lemma same_liveness_live_is_current (st st' : State) :
  same_liveness st st' -> live_is_current st -> live_is_current st'.
Proof.
  intros [Hm Hh] I h obj Hl Hr. rewrite Hm.
  specialize (Hh h). rewrite Hl in Hh. cbn in Hh. rewrite Hr in Hh.
  destruct (heap st !! h) as [obj0 |] eqn:E; cbn in Hh; [| discriminate].
  apply (I h obj0 E). congruence.
Qed.

(** The ways a run of the effect can end. *)
Lemma initEffect_cases (st : State) :
  initEffect fault st = (Normal None, st) \/
  (map_current st = None /\ exists v, initEffect fault st = (Normal None, set_mapError v st)) \/
  (map_current st = None /\
   exists v c l, initEffect fault st
                 = (Normal (Some Cleanup), set_mapError v (set_console c (set_calls l st)))) \/
  (map_current st = None /\
   exists div st1 st',
     initEffect fault st = (Normal (Some Cleanup), st') /\ created div st st1 /\
     (st' = st1 \/ exists v c, st' = set_mapError v (set_console c st1))).
Proof.
  destruct (map_current st) as [h |] eqn:Hm;
    [left; eapply initEffect_live_handle, Hm |].
  destruct (mapContainer_current st) as [div |] eqn:Hc;
    [| left; apply initEffect_no_container, Hc].
  destruct (String.eqb_spec (accessToken st) "") as [Ht | Ht].
  { right. left. split; [reflexivity |]. eexists.
    apply (initEffect_no_token fault st div Hm Hc Ht). }
  right. right. rewrite (initEffect_try fault st div Hm Hc Ht).
  destruct (fault (calls st) (NewMap (mapOptions div))) as [e |] eqn:Hf.
  - left. split; [reflexivity |].
    rewrite (try_body_constructor_throws fault st div e Hf). eauto.
  - right. split; [reflexivity |].
    destruct (try_body_constructor_returns fault st div Hf) as (out & st1 & E & C).
    rewrite E. destruct out as [[] | e]; exists div, st1; eauto 8.
Qed.

Lemma initEffect_same_courts : respects same_courts (initEffect fault).
Proof.
  intros st. unfold same_courts.
  destruct (initEffect_cases st)
    as [E | [(_ & v & E) | [(_ & v & c & l & E) | (_ & div & st1 & st' & E & C & S)]]];
    rewrite E; cbn [snd]; try reflexivity.
  destruct S as [-> | (v & c & ->)]; cbn; apply (created_courts _ _ _ C).
Qed.

Lemma initEffect_live_is_current (st : State) :
  live_is_current st -> live_is_current (snd (initEffect fault st)).
Proof.
  intros I.
  destruct (initEffect_cases st)
    as [E | [(_ & v & E) | [(_ & v & c & l & E) | (Hm & div & st1 & st' & E & C & S)]]];
    rewrite E; cbn [snd]; try exact I.
  assert (I1 : live_is_current st1).
  { destruct C as [Hh (obj & Hheap & _) _ _ _ _ _ _].
    intros h o Hl Hr. rewrite Hh. rewrite Hheap in Hl.
    destruct (decide (h < length (heap st))) as [Hlt | Hge].
    - rewrite lookup_app_l in Hl by exact Hlt.
      pose proof (I h o Hl Hr) as Hcur. congruence.
    - apply lookup_lt_Some in Hl. rewrite length_app in Hl. cbn in Hl.
      f_equal. lia. }
  destruct S as [-> | (v & c & ->)]; exact I1.
Qed.

Lemma initEffect_handle_in_heap (st : State) :
  handle_in_heap st -> handle_in_heap (snd (initEffect fault st)).
Proof.
  intros I.
  destruct (initEffect_cases st)
    as [E | [(_ & v & E) | [(_ & v & c & l & E) | (Hm & div & st1 & st' & E & C & S)]]];
    rewrite E; cbn [snd]; try exact I.
  assert (I1 : handle_in_heap st1).
  { destruct C as [Hh (obj & Hheap & _) _ _ _ _ _ _].
    intros h Hcur. rewrite Hh in Hcur. injection Hcur as <-.
    rewrite Hheap. exists obj. apply list_lookup_middle. reflexivity. }
  destruct S as [-> | (v & c & ->)]; exact I1.
Qed.

(** The ways a run of the cleanup can end. *)
Lemma cleanup_cases (st : State) :
  cleanup fault st = (Normal tt, st) \/
  (exists h e, cleanup fault st = (Throw e, set_calls (calls st ++ [Remove h]) st)) \/
  (exists h, map_current st = Some h /\
             cleanup fault st
             = (Normal tt,
                set_map_current None
                  (set_heap (alter mark_removed h (heap st))
                     (set_calls (calls st ++ [Remove h]) st)))).
Proof.
  destruct (map_current st) as [h |] eqn:Hm; [| left; apply cleanup_null_handle, Hm].
  right. destruct (fault (calls st) (Remove h)) as [e |] eqn:Hf.
  - left. exists h, e.
    unfold cleanup, remove, update_obj, map_current_deref, libcall, bind, read, modify, ret.
    rewrite Hm. cbn beta iota. rewrite Hm, Hf. reflexivity.
  - right. exists h. split; [reflexivity |]. apply (cleanup_live_handle fault st h Hm Hf).
Qed.

Lemma cleanup_same_courts : respects same_courts (cleanup fault).
Proof.
  intros st. unfold same_courts.
  destruct (cleanup_cases st) as [E | [(h & e & E) | (h & _ & E)]];
    rewrite E; reflexivity.
Qed.

Lemma cleanup_live_is_current (st : State) :
  live_is_current st -> live_is_current (snd (cleanup fault st)).
Proof.
  intros I.
  destruct (cleanup_cases st) as [E | [(h & e & E) | (h & Hm & E)]];
    rewrite E; cbn [snd]; try exact I.
  intros h' o Hl Hr. cbn [heap set_heap set_map_current set_calls] in Hl. exfalso.
  destruct (decide (h = h')) as [<- | Hne].
  - rewrite list_lookup_alter_eq in Hl.
    destruct (heap st !! h) as [o0 |]; cbn in Hl; [| discriminate].
    injection Hl as <-. discriminate Hr.
  - rewrite list_lookup_alter_ne in Hl by exact Hne.
    pose proof (I h' o Hl Hr) as Hcur. congruence.
Qed.

Lemma cleanup_handle_in_heap (st : State) :
  handle_in_heap st -> handle_in_heap (snd (cleanup fault st)).
Proof.
  intros I.
  destruct (cleanup_cases st) as [E | [(h & e & E) | (h & Hm & E)]];
    rewrite E; cbn [snd]; try exact I.
  intros h' Hcur. discriminate Hcur.
Qed.

Lemma same_liveness_handle_in_heap (st st' : State) :
  same_liveness st st' -> handle_in_heap st -> handle_in_heap st'.
Proof.
  intros [Hm Hh] I h Hcur. rewrite Hm in Hcur.
  destruct (I h Hcur) as [o Ho]. specialize (Hh h). rewrite Ho in Hh.
  destruct (heap st' !! h) as [o' |]; [eauto | discriminate Hh].
Qed.

(** The store the kept destructor leaves, as [Unmount] and [Rerun] use it. *)
Lemma destructor_same_courts (w : Mounted) :
  same_courts (store w)
    (match destructor w with
     | Some Cleanup => snd (cleanup fault (store w))
     | None => store w
     end).
Proof.
  destruct (destructor w) as [[] |]; [apply cleanup_same_courts | reflexivity].
Qed.

Lemma step_same_courts (i : Input) (w : Mounted) :
  same_courts (store w) (store (step fault i w)).
Proof.
  destruct i as [div | | | h ev]; cbn [step].
  - pose proof (initEffect_same_courts
                  (set_mapContainer_current (Some div) (new_instance (store w)))) as H.
    destruct (initEffect fault
                (set_mapContainer_current (Some div) (new_instance (store w))))
      as [[d | e] st1]; exact H.
  - apply destructor_same_courts.
  - pose proof (destructor_same_courts w) as H0. unfold same_courts in *.
    set (st := match destructor w with
               | Some Cleanup => snd (cleanup fault (store w))
               | None => store w
               end) in *.
    pose proof (initEffect_same_courts st) as H. unfold same_courts in H.
    destruct (initEffect fault st) as [[d | e] st1]; cbn [store snd] in *; congruence.
  - apply fire_same_courts.
Qed.

Lemma destructor_handle_in_heap (w : Mounted) :
  handle_in_heap (store w) ->
  handle_in_heap
    (match destructor w with
     | Some Cleanup => snd (cleanup fault (store w))
     | None => store w
     end).
Proof.
  intros I. destruct (destructor w) as [[] |]; [| exact I].
  exact (cleanup_handle_in_heap (store w) I).
Qed.

Lemma step_handle_in_heap (i : Input) (w : Mounted) :
  handle_in_heap (store w) -> handle_in_heap (store (step fault i w)).
Proof.
  intros I. destruct i as [div | | | h ev]; cbn [step].
  - assert (I0 : handle_in_heap
                   (set_mapContainer_current (Some div) (new_instance (store w))))
      by (intros h Hcur; discriminate Hcur).
    pose proof (initEffect_handle_in_heap _ I0) as H.
    destruct (initEffect fault
                (set_mapContainer_current (Some div) (new_instance (store w))))
      as [[d | e] st1]; exact H.
  - exact (destructor_handle_in_heap w I).
  - pose proof (initEffect_handle_in_heap _ (destructor_handle_in_heap w I)) as H.
    destruct (initEffect fault _) as [[d | e] st1]; exact H.
  - eapply same_liveness_handle_in_heap; [apply fire_same_liveness | exact I].
Qed.

Lemma run_same_courts (inputs : list Input) (w : Mounted) :
  typedBasketballCourts (store (run fault inputs w)) = typedBasketballCourts (store w).
Proof.
  unfold run. revert w.
  induction inputs as [| i inputs IH]; intros w; cbn [fold_left]; [reflexivity |].
  rewrite IH. apply step_same_courts.
Qed.

(** At any moment of any run from the initial store, [map.current] is
    null or refers to an object of the heap. *)
Lemma run_handle_in_heap (env : option string) (courts : FeatureCollection)
    (inputs : list Input) :
  handle_in_heap
    (store (run fault inputs {| store := initial_state env courts; destructor := None |})).
Proof.
  unfold run.
  assert (I0 : handle_in_heap
                 (store {| store := initial_state env courts; destructor := None |})).
  { intros h Hcur. discriminate Hcur. }
  revert I0. generalize {| store := initial_state env courts; destructor := None |}.
  induction inputs as [| i inputs IH]; intros w I; cbn [fold_left]; [exact I |].
  apply IH, step_handle_in_heap, I.
Qed.

End FrameInstances.

(** ** Dispatch: which listener an event reaches *)

Section Dispatch.

Variable fault : list Call -> Call -> option Exn.

Lemma bind_ret_tt (m : M unit) (st : State) :
  bind m (fun _ => ret tt) st = m st.
Proof. unfold bind, ret. destruct (m st) as [[[] | e] st1]; reflexivity. Qed.

(** Right after the effect, the widget has the load and the error
    listener: a load event runs the load listener and nothing else. *)
Lemma fire_load_after_mount (st : State) (h : Handle) (obj : MapObj) :
  heap st !! h = Some obj ->
  obj_removed obj = false ->
  obj_listeners obj = mounted_listeners ->
  fire fault h LoadEvent st = load_listener fault st.
Proof.
  intros Hh Hr Hl. unfold fire. rewrite Hh, Hr, Hl.
  cbn [mounted_listeners run_listeners registered_for reg_type reg_layer reg_listener
       event_type event_layer call_listener].
  change (bind (load_listener fault) (fun _ => bind (ret tt) (fun _ => ret tt)) st
          = load_listener fault st).
  unfold bind at 1. unfold bind, ret.
  destruct (load_listener fault st) as [[[] | e] st1]; reflexivity.
Qed.

(** An error event runs the error listener, before and after the load. *)
Lemma fire_error_after_mount (st : State) (h : Handle) (obj : MapObj) (e : Exn) :
  heap st !! h = Some obj ->
  obj_removed obj = false ->
  obj_listeners obj = mounted_listeners
  \/ obj_listeners obj = mounted_listeners ++ overlay_listeners ->
  fire fault h (ErrorEvent e) st = error_listener e st.
Proof.
  intros Hh Hr [Hl | Hl]; unfold fire; rewrite Hh, Hr, Hl; reflexivity.
Qed.

(** After the load, a click on the circle layer runs the click listener. *)
Lemma fire_click_after_load (st : State) (h : Handle) (obj : MapObj) (e : MapMouseEvent) :
  heap st !! h = Some obj ->
  obj_removed obj = false ->
  obj_listeners obj = mounted_listeners ++ overlay_listeners ->
  fire fault h (ClickEvent "basketball-courts-layer" e) st = click_listener fault e st.
Proof.
  intros Hh Hr Hl. unfold fire. rewrite Hh, Hr, Hl.
  cbn [mounted_listeners overlay_listeners app run_listeners registered_for
       reg_type reg_layer reg_listener event_type event_layer call_listener].
  change (bind (ret tt) (fun _ => bind (ret tt) (fun _ =>
            bind (click_listener fault e) (fun _ =>
              bind (ret tt) (fun _ => bind (ret tt) (fun _ => ret tt))))) st
          = click_listener fault e st).
  unfold bind, ret.
  destruct (click_listener fault e st) as [[[] | e1] st1]; reflexivity.
Qed.

End Dispatch.

(** The control registration raises after the map was constructed: the
    exception is caught, the banner is set, and the map stays referenced. *)
Example addControl_exception_example :
  let st := snd (initEffect addControl_fails
                   (set_mapContainer_current (Some (DivElement 0))
                      (initial_state (Some "pk.test") sample_courts))) in
  fst (initEffect addControl_fails
         (set_mapContainer_current (Some (DivElement 0))
            (initial_state (Some "pk.test") sample_courts)))
  = Normal (Some Cleanup) /\
  mapError st = Some "Failed to initialize map" /\
  console st = [ConsoleError "Error initializing map:" (Error "control rejected")] /\
  map_current st = Some 0 /\
  count_calls is_NewMap (calls st) = 1.
Proof. vm_compute. repeat split. Qed.

(** A whole life: mount, load, a click on the sample court, unmount, and
    the cleanup once more. *)
Example lifecycle_example :
  let w := run no_fault
             [ Mount (DivElement 0);
               Fire 0 LoadEvent;
               Fire 0 (ClickEvent "basketball-courts-layer"
                         {| e_features := Some (features sample_courts) |});
               Unmount ]
             {| store := initial_state (Some "pk.test") sample_courts;
                destructor := None |} in
  map_current (store w) = None /\
  mapError (store w) = None /\
  count_calls is_NewMap (calls (store w)) = 1 /\
  count_calls is_AddSource (calls (store w)) = 1 /\
  count_calls is_AddLayer (calls (store w)) = 2 /\
  count_calls is_popup_call (calls (store w)) = 4 /\
  count_calls is_Remove (calls (store w)) = 1 /\
  (obj_removed <$> heap (store w) !! 0) = Some true /\
  (length <$> (obj_popups <$> heap (store w) !! 0)) = Some 1 /\
  cleanup no_fault (store w) = (Normal tt, store w).
Proof. vm_compute. repeat split. Qed.

(** A mount whose constructor fails, the unmount, and a new mount that
    succeeds: the new instance starts from a null error state and a null
    handle, so it shows no banner and creates its own widget. *)
Example remount_starts_from_null :
  let w := run no_fault [Unmount; Mount (DivElement 1)]
             (step constructor_fails (Mount (DivElement 0))
                {| store := initial_state (Some "pk.test") sample_courts;
                   destructor := None |}) in
  view_banner
    (render (store (step constructor_fails (Mount (DivElement 0))
                      {| store := initial_state (Some "pk.test") sample_courts;
                         destructor := None |})))
  = Some "Failed to initialize map" /\
  view_banner (render (store w)) = None /\
  map_current (store w) = Some 0 /\
  destructor w = Some Cleanup.
Proof. vm_compute. repeat split. Qed.

(** * The properties of the specification *)

(** C1. With the access token absent, a run of the effect on a store with
    no handle and an attached container stores exactly the message
    "Mapbox access token is missing. Please check your environment
    variables.", the view shows that banner, no call into the library is
    made (so no map is constructed) and the handle stays null. *)
Theorem missing_token_reports_error
    (fault : list Call -> Call -> option Exn) (st : State) (div : HTMLDivElement) :
  map_current st = None ->
  mapContainer_current st = Some div ->
  accessToken st = accessToken_of_env None ->
  exists st',
    initEffect fault st = (Normal None, st') /\
    mapError st' =
      Some "Mapbox access token is missing. Please check your environment variables." /\
    view_banner (render st') =
      Some "Mapbox access token is missing. Please check your environment variables." /\
    calls st' = calls st /\
    count_calls is_NewMap (calls st') = count_calls is_NewMap (calls st) /\
    heap st' = heap st /\
    map_current st' = None.
Proof.
  intros Hm Hc Ht. rewrite accessToken_absent in Ht.
  eexists. split; [apply (initEffect_no_token fault st div Hm Hc Ht) |].
  simpl. repeat split; assumption.
Qed.

(** First mount with no token in the environment: the ref is attached,
    the effect runs on the initial store. *)
Lemma missing_token_reports_error_witness :
  exists st',
    initEffect constructor_fails
      (set_mapContainer_current (Some (DivElement 0)) (initial_state None sample_courts))
    = (Normal None, st') /\
    mapError st' =
      Some "Mapbox access token is missing. Please check your environment variables." /\
    view_banner (render st') =
      Some "Mapbox access token is missing. Please check your environment variables." /\
    calls st' = [] /\
    count_calls is_NewMap (calls st') = 0 /\
    heap st' = [] /\
    map_current st' = None.
Proof.
  apply (missing_token_reports_error constructor_fails
           (set_mapContainer_current (Some (DivElement 0)) (initial_state None sample_courts))
           (DivElement 0)); reflexivity.
Defined.

(** C2. A run of the effect with a token, an attached container, no
    handle and a constructor that returns: exactly one [new mapboxgl.Map]
    is logged, the heap grows by exactly one live object, and
    [map.current] refers to it.  Whenever the effect runs on a store whose
    handle is non-null -- the store just obtained or any other -- it
    returns at once: same store, no call, no destructor. *)
Theorem one_instance_per_mount
    (fault : list Call -> Call -> option Exn) (st : State) (div : HTMLDivElement) :
  map_current st = None ->
  mapContainer_current st = Some div ->
  accessToken st <> "" ->
  fault (calls st) (NewMap (mapOptions div)) = None ->
  exists st' obj,
    initEffect fault st = (Normal (Some Cleanup), st') /\
    count_calls is_NewMap (calls st') = S (count_calls is_NewMap (calls st)) /\
    heap st' = heap st ++ [obj] /\
    obj_removed obj = false /\
    obj_options obj = mapOptions div /\
    map_current st' = Some (length (heap st)) /\
    initEffect fault st' = (Normal None, st') /\
    (forall st2 h, map_current st2 = Some h -> initEffect fault st2 = (Normal None, st2)).
Proof.
  intros Hm Hc Ht Hf.
  destruct (try_body_constructor_returns fault st div Hf) as (out & st1 & E & C).
  destruct C as [Hh (obj & Hheap & Hlive & Hopt & _) (rest & Hcalls & Hnew & _) _ _ _ _ _].
  assert (Hcount : count_calls is_NewMap (calls st1) = S (count_calls is_NewMap (calls st))).
  { rewrite Hcalls.
    change (NewMap (mapOptions div) :: rest) with ([NewMap (mapOptions div)] ++ rest).
    rewrite !count_calls_app, Hnew. cbn. lia. }
  pose proof (initEffect_try fault st div Hm Hc Ht) as I. rewrite E in I.
  destruct out as [[] | e].
  - exists st1, obj. repeat split; try assumption.
    + eapply initEffect_live_handle, Hh.
    + intros st2 h H2. eapply initEffect_live_handle, H2.
  - eexists. exists obj. split; [exact I |].
    repeat split; try (cbn; assumption).
    + eapply initEffect_live_handle. cbn. exact Hh.
    + intros st2 h H2. eapply initEffect_live_handle, H2.
Qed.

Lemma one_instance_per_mount_witness :
  exists st' obj,
    initEffect no_fault
      (set_mapContainer_current (Some (DivElement 0))
         (initial_state (Some "pk.test") sample_courts))
    = (Normal (Some Cleanup), st') /\
    count_calls is_NewMap (calls st') = 1 /\
    heap st' = [] ++ [obj] /\
    obj_removed obj = false /\
    obj_options obj = mapOptions (DivElement 0) /\
    map_current st' = Some 0 /\
    initEffect no_fault st' = (Normal None, st') /\
    (forall st2 h, map_current st2 = Some h -> initEffect no_fault st2 = (Normal None, st2)).
Proof.
  apply (one_instance_per_mount no_fault
           (set_mapContainer_current (Some (DivElement 0))
              (initial_state (Some "pk.test") sample_courts))
           (DivElement 0)); [reflexivity | reflexivity | discriminate | reflexivity].
Defined.

(** C3. The load event fired on the widget the effect has set up (live,
    referenced by [map.current], carrying the listeners the effect
    registered), the registration calls returning: the dispatch returns
    normally having made exactly one [addSource] and exactly two
    [addLayer] calls; the widget gains the source "basketball-courts"
    holding the collection, then the circle layer, then the label layer,
    and no other source or layer.  The circle layer paints with color
    "#FF5733" and stroke width 2; the label layer takes its text from the
    [name] property. *)
Theorem load_registers_source_and_layers
    (fault : list Call -> Call -> option Exn) (st : State) (h : Handle) (obj : MapObj) :
  map_current st = Some h ->
  heap st !! h = Some obj ->
  obj_removed obj = false ->
  obj_listeners obj = mounted_listeners ->
  quiet fault is_overlay_call ->
  exists st' obj',
    fire fault h LoadEvent st = (Normal tt, st') /\
    heap st' !! h = Some obj' /\
    obj_sources obj'
    = obj_sources obj
      ++ [("basketball-courts",
           {| source_type := "geojson"; source_data := typedBasketballCourts st |})] /\
    obj_layers obj' = obj_layers obj ++ [circleLayer; labelLayer] /\
    count_calls is_AddSource (calls st') = 1 + count_calls is_AddSource (calls st) /\
    count_calls is_AddLayer (calls st') = 2 + count_calls is_AddLayer (calls st) /\
    layer_type circleLayer = "circle" /\
    layer_type labelLayer = "symbol" /\
    layer_source circleLayer = "basketball-courts" /\
    layer_source labelLayer = "basketball-courts" /\
    layer_layout labelLayer !! "text-field" = Some (SArr [SStr "get"; SStr "name"]) /\
    layer_paint circleLayer !! "circle-color" = Some (SStr "#FF5733") /\
    layer_paint circleLayer !! "circle-stroke-width" = Some (SNum 2%Q).
Proof.
  intros Hm Hh Hr Hl Hq.
  rewrite (fire_load_after_mount fault st h obj Hh Hr Hl).
  unfold load_listener, addSource, addLayer, on, update_obj, console_log,
    map_current_deref, libcall, bind, read, modify, ret.
  state_simpl. rewrite Hm.
  repeat (no_fault_here Hq; state_simpl; rewrite ?Hm).
  do 2 eexists. split; [reflexivity |]. state_simpl.
  split; [rewrite !list_lookup_alter_eq, Hh; reflexivity |].
  cbn [obj_sources obj_layers push_source push_layer push_listener].
  split; [reflexivity |].
  split; [rewrite <- !app_assoc; reflexivity |].
  split; [rewrite <- !app_assoc, count_calls_app; cbn; lia |].
  split; [rewrite <- !app_assoc, count_calls_app; cbn; lia |].
  repeat split.
Qed.

(** The first mount, then the load event: one source, two layers. *)
Lemma load_registers_source_and_layers_witness :
  exists st' obj',
    fire no_fault 0 LoadEvent
      (snd (initEffect no_fault
              (set_mapContainer_current (Some (DivElement 0))
                 (initial_state (Some "pk.test") sample_courts))))
    = (Normal tt, st') /\
    heap st' !! 0 = Some obj' /\
    obj_sources obj'
    = [] ++ [("basketball-courts",
              {| source_type := "geojson"; source_data := sample_courts |})] /\
    obj_layers obj' = [] ++ [circleLayer; labelLayer] /\
    count_calls is_AddSource (calls st') = 1 + 0 /\
    count_calls is_AddLayer (calls st') = 2 + 0 /\
    layer_type circleLayer = "circle" /\
    layer_type labelLayer = "symbol" /\
    layer_source circleLayer = "basketball-courts" /\
    layer_source labelLayer = "basketball-courts" /\
    layer_layout labelLayer !! "text-field" = Some (SArr [SStr "get"; SStr "name"]) /\
    layer_paint circleLayer !! "circle-color" = Some (SStr "#FF5733") /\
    layer_paint circleLayer !! "circle-stroke-width" = Some (SNum 2%Q).
Proof.
  apply (load_registers_source_and_layers no_fault
           (snd (initEffect no_fault
                   (set_mapContainer_current (Some (DivElement 0))
                      (initial_state (Some "pk.test") sample_courts))))
           0 (mounted_obj (DivElement 0)));
    try reflexivity.
  intros hist c _. reflexivity.
Defined.

(** C4. A click carrying at least one feature, the first at [(lng, lat)],
    on a live handle and with the popup calls returning: the listener
    returns normally and exactly one popup is added to the map, anchored
    at [(lng, lat)], whose HTML is the template filled in and contains the
    name, the description, the court type, the decimal digits of the hoop
    count and the surface.  The hoop count is a non-negative safe integer
    (at most 2^53 - 1): the bound is carried by the type of [hoops]. *)
Theorem click_opens_popup
    (fault : list Call -> Call -> option Exn) (e : MapMouseEvent) (st : State)
    (f : Feature) (fs : list Feature) (lng lat : number) (h : Handle) (obj : MapObj) :
  e_features e = Some (f :: fs) ->
  coordinates (geometry f) = [lng; lat] ->
  map_current st = Some h ->
  heap st !! h = Some obj ->
  quiet fault is_popup_call ->
  exists st' body,
    click_listener fault e st = (Normal tt, st') /\
    heap st' !! h
      = Some (push_popup {| popup_lngLat := Some [lng; lat]; popup_html := Some body |} obj) /\
    body = popupContent (properties f) /\
    Contains (BasketballCourtProperties.name (properties f)) body /\
    Contains (BasketballCourtProperties.description (properties f)) body /\
    Contains (BasketballCourtProperties.courtType (properties f)) body /\
    Contains (Number_toString (BasketballCourtProperties.hoops (properties f))) body /\
    Contains (BasketballCourtProperties.surface (properties f)) body /\
    count_calls is_popup_call (calls st') = 4 + count_calls is_popup_call (calls st) /\
    mapError st' = mapError st /\ map_current st' = map_current st.
Proof.
  intros He Hc Hm Hh Hq.
  unfold click_listener, new_Popup, setLngLat, setHTML, addTo, update_obj,
    map_current_deref, libcall, bind, read, modify, ret.
  rewrite He, Hm, Hc, slice_all. state_simpl.
  no_fault_here Hq. state_simpl. rewrite Hm. no_fault_here Hq. state_simpl.
  do 2 eexists. split; [reflexivity |]. state_simpl.
  split; [rewrite list_lookup_alter_eq, Hh; reflexivity |].
  split; [reflexivity |].
  unfold popupContent.
  repeat split; auto 20 with contains.
  rewrite <- !app_assoc, count_calls_app. cbn. lia.
Qed.

(** The example of the specification: Court A, two hoops. *)
Lemma click_opens_popup_witness :
  exists st' body,
    click_listener no_fault {| e_features := Some (features sample_courts) |}
      (mkState "pk.test" sample_courts (Some (DivElement 0)) (Some 0) None
               [fresh_map (mapOptions (DivElement 0))] [] [])
    = (Normal tt, st') /\
    heap st' !! 0
      = Some (push_popup {| popup_lngLat := Some [139.7%Q; 35.66%Q];
                            popup_html := Some body |}
                         (fresh_map (mapOptions (DivElement 0)))) /\
    body = popupContent (BasketballCourtProperties.mk
                           "court-a" "Court A" "Nice court" "outdoor" two_hoops "asphalt") /\
    Contains "Court A" body /\
    Contains "Nice court" body /\
    Contains "outdoor" body /\
    Contains "2" body /\
    Contains "asphalt" body /\
    count_calls is_popup_call (calls st') = 4 + 0 /\
    mapError st' = None /\ map_current st' = Some 0.
Proof.
  apply (click_opens_popup no_fault
           {| e_features := Some (features sample_courts) |}
           (mkState "pk.test" sample_courts (Some (DivElement 0)) (Some 0) None
                    [fresh_map (mapOptions (DivElement 0))] [] [])
           {| geometry := {| coordinates := [139.7%Q; 35.66%Q] |};
              properties := BasketballCourtProperties.mk
                "court-a" "Court A" "Nice court" "outdoor" two_hoops "asphalt" |}
           [] (139.7%Q) (35.66%Q) 0 (fresh_map (mapOptions (DivElement 0))));
    try reflexivity.
  intros hist c _. reflexivity.
Defined.

(** C5. A click with no feature list, with an empty feature list, or
    arriving when the handle is null, does nothing: the listener returns
    normally and the store -- heap, call log, error state -- is the one it
    started from. *)
Theorem click_without_feature_is_noop
    (fault : list Call -> Call -> option Exn) (e : MapMouseEvent) (st : State) :
  e_features e = None \/ e_features e = Some [] \/ map_current st = None ->
  click_listener fault e st = (Normal tt, st).
Proof.
  unfold click_listener, bind, read, ret.
  intros [H | [H | H]]; rewrite H; try reflexivity.
  destruct (e_features e) as [[| f fs] |]; reflexivity.
Qed.

(** A click on a feature while [map.current] is null. *)
Lemma click_without_feature_is_noop_witness :
  click_listener no_fault {| e_features := Some (features sample_courts) |}
                 (initial_state (Some "pk.test") sample_courts)
  = (Normal tt, initial_state (Some "pk.test") sample_courts).
Proof.
  apply (click_without_feature_is_noop no_fault
           {| e_features := Some (features sample_courts) |}
           (initial_state (Some "pk.test") sample_courts)).
  right. right. reflexivity.
Defined.

(** C6. The cleanup on a store with a live handle, [remove] returning:
    exactly one [remove] is logged, on that handle; the object is marked
    removed and [map.current] is null.  A second run of the cleanup -- on
    the store just obtained, or on any store whose handle is null --
    returns normally and changes nothing, so no second [remove] is made. *)
Theorem cleanup_releases_once
    (fault : list Call -> Call -> option Exn) (st : State) (h : Handle) (obj : MapObj) :
  map_current st = Some h ->
  heap st !! h = Some obj ->
  fault (calls st) (Remove h) = None ->
  exists st1,
    cleanup fault st = (Normal tt, st1) /\
    calls st1 = calls st ++ [Remove h] /\
    count_calls is_Remove (calls st1) = S (count_calls is_Remove (calls st)) /\
    heap st1 !! h = Some (mark_removed obj) /\
    map_current st1 = None /\
    cleanup fault st1 = (Normal tt, st1) /\
    (forall st2, map_current st2 = None -> cleanup fault st2 = (Normal tt, st2)).
Proof.
  intros Hm Hh Hf. eexists. split; [apply (cleanup_live_handle fault st h Hm Hf) |].
  cbn [calls heap map_current set_calls set_heap set_map_current].
  split; [reflexivity |].
  split; [rewrite count_calls_app; cbn; lia |].
  split; [rewrite list_lookup_alter_eq, Hh; reflexivity |].
  split; [reflexivity |].
  split; [apply cleanup_null_handle; reflexivity |].
  intros st2 H2. apply cleanup_null_handle, H2.
Qed.

(** Unmount right after a successful first mount. *)
Lemma cleanup_releases_once_witness :
  exists st1,
    cleanup no_fault
      (snd (initEffect no_fault
              (set_mapContainer_current (Some (DivElement 0))
                 (initial_state (Some "pk.test") sample_courts))))
    = (Normal tt, st1) /\
    calls st1
    = calls (snd (initEffect no_fault
                    (set_mapContainer_current (Some (DivElement 0))
                       (initial_state (Some "pk.test") sample_courts))))
      ++ [Remove 0] /\
    count_calls is_Remove (calls st1) = 1 /\
    heap st1 !! 0
    = Some (mark_removed
              (mounted_obj (DivElement 0))) /\
    map_current st1 = None /\
    cleanup no_fault st1 = (Normal tt, st1) /\
    (forall st2, map_current st2 = None -> cleanup no_fault st2 = (Normal tt, st2)).
Proof.
  apply (cleanup_releases_once no_fault
           (snd (initEffect no_fault
                   (set_mapContainer_current (Some (DivElement 0))
                      (initial_state (Some "pk.test") sample_courts))))
           0
           (mounted_obj (DivElement 0)));
    reflexivity.
Defined.

(** C7. The effect never completes abruptly.  When the [try] block raises
    [e] -- from the constructor, from a listener registration or from the
    control registration -- the effect still returns its destructor
    normally, [e] goes to the console, and the error state holds the fixed
    message "Failed to initialize map", which the view shows. *)
Theorem init_exception_is_caught
    (fault : list Call -> Call -> option Exn)
    (st st1 : State) (div : HTMLDivElement) (e : Exn) :
  map_current st = None ->
  mapContainer_current st = Some div ->
  accessToken st <> "" ->
  try_body fault div st = (Throw e, st1) ->
  exists st',
    initEffect fault st = (Normal (Some Cleanup), st') /\
    mapError st' = Some "Failed to initialize map" /\
    view_banner (render st') = Some "Failed to initialize map" /\
    console st' = console st1 ++ [ConsoleError "Error initializing map:" e] /\
    calls st' = calls st1 /\ heap st' = heap st1 /\ map_current st' = map_current st1 /\
    (forall st0, exists r st0', initEffect fault st0 = (Normal r, st0')).
Proof.
  intros Hm Hc Ht E.
  pose proof (initEffect_try fault st div Hm Hc Ht) as I. rewrite E in I.
  eexists. split; [exact I |]. cbn. repeat split.
  intros st0. apply initEffect_total.
Qed.

(** The constructor raises on a first mount. *)
Lemma init_exception_is_caught_witness :
  exists st',
    initEffect constructor_fails
      (set_mapContainer_current (Some (DivElement 0))
         (initial_state (Some "pk.test") sample_courts))
    = (Normal (Some Cleanup), st') /\
    mapError st' = Some "Failed to initialize map" /\
    view_banner (render st') = Some "Failed to initialize map" /\
    console st' = [] ++ [ConsoleError "Error initializing map:"
                                      (Error "Failed to initialize WebGL")] /\
    calls st' = [NewMap (mapOptions (DivElement 0))] /\
    heap st' = [] /\ map_current st' = None /\
    (forall st0, exists r st0', initEffect constructor_fails st0 = (Normal r, st0')).
Proof.
  apply (init_exception_is_caught constructor_fails
           (set_mapContainer_current (Some (DivElement 0))
              (initial_state (Some "pk.test") sample_courts))
           (set_calls [NewMap (mapOptions (DivElement 0))]
              (set_mapContainer_current (Some (DivElement 0))
                 (initial_state (Some "pk.test") sample_courts)))
           (DivElement 0) (Error "Failed to initialize WebGL"));
    [reflexivity | reflexivity | discriminate | reflexivity].
Defined.

(** C8. An error event on a store whose handle refers to a live object:
    the listener returns normally, logs the event and stores the fixed
    message "Error loading map", which the view shows.  Nothing else
    moves: the handle is the same and non-null, the heap is the same (the
    object is still there, not removed), no call into the library is
    made, and container, token and collection are as before. *)
Theorem runtime_error_only_sets_banner
    (e : Exn) (st : State) (h : Handle) (obj : MapObj) :
  map_current st = Some h ->
  heap st !! h = Some obj ->
  obj_removed obj = false ->
  exists st',
    error_listener e st = (Normal tt, st') /\
    mapError st' = Some "Error loading map" /\
    view_banner (render st') = Some "Error loading map" /\
    console st' = console st ++ [ConsoleError "Map error:" e] /\
    map_current st' = Some h /\
    heap st' = heap st /\
    heap st' !! h = Some obj /\
    count_calls is_Remove (calls st') = count_calls is_Remove (calls st) /\
    calls st' = calls st /\
    mapContainer_current st' = mapContainer_current st /\
    accessToken st' = accessToken st /\
    typedBasketballCourts st' = typedBasketballCourts st.
Proof.
  intros Hm Hh Hl. eexists. split; [reflexivity |].
  cbn. repeat split; assumption.
Qed.

Lemma runtime_error_only_sets_banner_witness :
  exists st',
    error_listener (Error "tile failed to load")
      (mkState "pk.test" sample_courts (Some (DivElement 0)) (Some 0) None
               [fresh_map (mapOptions (DivElement 0))] [] [])
    = (Normal tt, st') /\
    mapError st' = Some "Error loading map" /\
    view_banner (render st') = Some "Error loading map" /\
    console st' = [] ++ [ConsoleError "Map error:" (Error "tile failed to load")] /\
    map_current st' = Some 0 /\
    heap st' = [fresh_map (mapOptions (DivElement 0))] /\
    heap st' !! 0 = Some (fresh_map (mapOptions (DivElement 0))) /\
    count_calls is_Remove (calls st') = 0 /\
    calls st' = [] /\
    mapContainer_current st' = Some (DivElement 0) /\
    accessToken st' = "pk.test" /\
    typedBasketballCourts st' = sample_courts.
Proof.
  apply (runtime_error_only_sets_banner (Error "tile failed to load")
           (mkState "pk.test" sample_courts (Some (DivElement 0)) (Some 0) None
                    [fresh_map (mapOptions (DivElement 0))] [] [])
           0 (fresh_map (mapOptions (DivElement 0)))); reflexivity.
Defined.

(** C9. The collection object is never written.  Each of the click,
    mouseenter and mouseleave listeners -- and likewise the load and error
    listeners, the effect and its cleanup -- leaves it equal to what it
    was, whatever the event and however the library behaves; hence after
    any sequence of mounts, unmounts and widget events the collection is
    the one loaded at startup: same features, same properties, same
    coordinates, none added, none removed.  The coordinate the click
    listener hands to the popup is a [slice] copy with the same content. *)
Theorem courts_are_never_mutated (fault : list Call -> Call -> option Exn) :
  (forall e st,
     typedBasketballCourts (snd (click_listener fault e st)) = typedBasketballCourts st) /\
  (forall st,
     typedBasketballCourts (snd (mouseenter_listener fault st)) = typedBasketballCourts st) /\
  (forall st,
     typedBasketballCourts (snd (mouseleave_listener fault st)) = typedBasketballCourts st) /\
  (forall st,
     typedBasketballCourts (snd (load_listener fault st)) = typedBasketballCourts st) /\
  (forall e st,
     typedBasketballCourts (snd (error_listener e st)) = typedBasketballCourts st) /\
  (forall st,
     typedBasketballCourts (snd (initEffect fault st)) = typedBasketballCourts st) /\
  (forall st,
     typedBasketballCourts (snd (cleanup fault st)) = typedBasketballCourts st) /\
  (forall h ev st,
     typedBasketballCourts (snd (fire fault h ev st)) = typedBasketballCourts st) /\
  (forall env courts inputs,
     typedBasketballCourts
       (store (run fault inputs {| store := initial_state env courts; destructor := None |}))
     = courts) /\
  (forall f : Feature, slice (coordinates (geometry f)) = coordinates (geometry f)).
Proof.
  split; [intros e; apply (click_same_courts fault e) |].
  split; [apply (mouseenter_same_courts fault) |].
  split; [apply (mouseleave_same_courts fault) |].
  split; [apply (load_same_courts fault) |].
  split; [intros e; apply (error_same_courts e) |].
  split; [apply (initEffect_same_courts fault) |].
  split; [apply (cleanup_same_courts fault) |].
  split; [intros h ev; apply (fire_same_courts fault h ev) |].
  split; [intros env courts inputs; apply (run_same_courts fault) |].
  intros f. apply slice_all.
Qed.

(** C10. With no container attached the effect returns before the token
    check, whether or not a token is configured: it hands React no
    destructor and leaves the whole store as it was, so no error is
    stored, the view shows the same banner as before (none on a first
    mount), no call into the library is made and no map is created. *)
Theorem no_container_returns_silently
    (fault : list Call -> Call -> option Exn) (st : State) :
  mapContainer_current st = None ->
  initEffect fault st = (Normal None, st) /\
  mapError (snd (initEffect fault st)) = mapError st /\
  view_banner (render (snd (initEffect fault st))) = view_banner (render st) /\
  calls (snd (initEffect fault st)) = calls st /\
  heap (snd (initEffect fault st)) = heap st /\
  map_current (snd (initEffect fault st)) = map_current st.
Proof.
  intros Hc. rewrite (initEffect_no_container fault st Hc). simpl. repeat split.
Qed.

(** The initial store, token missing and no container: nothing happens,
    and in particular no banner appears. *)
Lemma no_container_returns_silently_witness :
  (initEffect no_fault (initial_state None sample_courts)
     = (Normal None, initial_state None sample_courts) /\
   mapError (snd (initEffect no_fault (initial_state None sample_courts))) = None /\
   view_banner (render (snd (initEffect no_fault (initial_state None sample_courts)))) = None /\
   calls (snd (initEffect no_fault (initial_state None sample_courts))) = [] /\
   heap (snd (initEffect no_fault (initial_state None sample_courts))) = [] /\
   map_current (snd (initEffect no_fault (initial_state None sample_courts))) = None).
Proof.
  apply (no_container_returns_silently no_fault (initial_state None sample_courts)).
  reflexivity.
Defined.

(** * Further properties of the component *)

(** ** Helpers *)

Lemma alter_fixed {A} (f : A -> A) (l : list A) (i : nat) (x : A) :
  l !! i = Some x -> f x = x -> alter f i l = l.
Proof.
  intros Hl Hf. apply list_eq. intros j.
  destruct (decide (i = j)) as [<- | Hne].
  - rewrite list_lookup_alter_eq, Hl. cbn. rewrite Hf. reflexivity.
  - apply list_lookup_alter_ne, Hne.
Qed.

Lemma with_cursor_same (o : MapObj) : with_cursor (obj_cursor o) o = o.
Proof. destruct o; reflexivity. Qed.

Lemma with_cursor_twice (c1 c2 : string) (o : MapObj) :
  with_cursor c2 (with_cursor c1 o) = with_cursor c2 o.
Proof. reflexivity. Qed.

Section HoverFacts.

Variable fault : list Call -> Call -> option Exn.

(** What either hover listener does on a live handle when [getCanvas]
    returns: one call, then the cursor of that widget is set. *)
Lemma mouseenter_live (st : State) (h : Handle) :
  map_current st = Some h ->
  fault (calls st) (GetCanvas h) = None ->
  mouseenter_listener fault st
  = (Normal tt,
     set_heap (alter (with_cursor "pointer") h (heap st))
       (set_calls (calls st ++ [GetCanvas h]) st)).
Proof.
  intros Hm Hf.
  unfold mouseenter_listener, getCanvas, set_style_cursor, update_obj,
    map_current_deref, libcall, bind, read, modify, ret.
  rewrite Hm. cbn beta iota. rewrite Hm, Hf. reflexivity.
Qed.

Lemma mouseleave_live (st : State) (h : Handle) :
  map_current st = Some h ->
  fault (calls st) (GetCanvas h) = None ->
  mouseleave_listener fault st
  = (Normal tt,
     set_heap (alter (with_cursor "") h (heap st))
       (set_calls (calls st ++ [GetCanvas h]) st)).
Proof.
  intros Hm Hf.
  unfold mouseleave_listener, getCanvas, set_style_cursor, update_obj,
    map_current_deref, libcall, bind, read, modify, ret.
  rewrite Hm. cbn beta iota. rewrite Hm, Hf. reflexivity.
Qed.

Lemma mouseenter_null (st : State) :
  map_current st = None -> mouseenter_listener fault st = (Normal tt, st).
Proof.
  intros Hm. unfold mouseenter_listener, bind, read, ret. rewrite Hm. reflexivity.
Qed.

Lemma mouseleave_null (st : State) :
  map_current st = None -> mouseleave_listener fault st = (Normal tt, st).
Proof.
  intros Hm. unfold mouseleave_listener, bind, read, ret. rewrite Hm. reflexivity.
Qed.

End HoverFacts.

(** X1. Hovering the circle layer: on a live handle, with [getCanvas]
    returning, the mouseenter listener makes exactly one [getCanvas] call
    and sets the cursor of the current widget to "pointer"; the widget's
    sources, layers, listeners, controls and popups, every other widget,
    the error state and the handle are as before.  With a null handle the
    listener does nothing at all. *)
Theorem mouseenter_sets_pointer
    (fault : list Call -> Call -> option Exn) (st : State) (h : Handle) (obj : MapObj) :
  map_current st = Some h ->
  heap st !! h = Some obj ->
  fault (calls st) (GetCanvas h) = None ->
  exists st',
    mouseenter_listener fault st = (Normal tt, st') /\
    heap st' !! h = Some (with_cursor "pointer" obj) /\
    (forall h', h' <> h -> heap st' !! h' = heap st !! h') /\
    calls st' = calls st ++ [GetCanvas h] /\
    mapError st' = mapError st /\
    map_current st' = Some h /\
    (forall st0, map_current st0 = None ->
                 mouseenter_listener fault st0 = (Normal tt, st0)).
Proof.
  intros Hm Hh Hf. eexists. split; [apply (mouseenter_live fault st h Hm Hf) |].
  cbn [heap calls mapError map_current set_heap set_calls].
  split; [rewrite list_lookup_alter_eq, Hh; reflexivity |].
  split; [intros h' Hne; apply list_lookup_alter_ne; congruence |].
  split; [reflexivity |]. split; [reflexivity |]. split; [exact Hm |].
  intros st0 H0. apply mouseenter_null, H0.
Qed.

Lemma mouseenter_sets_pointer_witness :
  exists st',
    mouseenter_listener no_fault
      (mkState "pk.test" sample_courts (Some (DivElement 0)) (Some 0) None
               [mounted_obj (DivElement 0)] [] [])
    = (Normal tt, st') /\
    heap st' !! 0 = Some (with_cursor "pointer" (mounted_obj (DivElement 0))) /\
    (forall h', h' <> 0 -> heap st' !! h' = [mounted_obj (DivElement 0)] !! h') /\
    calls st' = [] ++ [GetCanvas 0] /\
    mapError st' = None /\
    map_current st' = Some 0 /\
    (forall st0, map_current st0 = None ->
                 mouseenter_listener no_fault st0 = (Normal tt, st0)).
Proof.
  apply (mouseenter_sets_pointer no_fault
           (mkState "pk.test" sample_courts (Some (DivElement 0)) (Some 0) None
                    [mounted_obj (DivElement 0)] [] [])
           0 (mounted_obj (DivElement 0))); reflexivity.
Defined.

(** X2. Hover round trip: on a live handle whose widget shows the default
    cursor, with [getCanvas] returning, mouseenter followed by mouseleave
    leaves the whole heap exactly as it was -- the cursor is back to the
    empty string and nothing else moved -- after two [getCanvas] calls.
    Whatever the cursor was, mouseleave alone sets it to the empty string. *)
Theorem hover_round_trip
    (fault : list Call -> Call -> option Exn) (st : State) (h : Handle) (obj : MapObj) :
  map_current st = Some h ->
  heap st !! h = Some obj ->
  obj_cursor obj = "" ->
  quiet fault is_GetCanvas ->
  exists st1 st2,
    mouseenter_listener fault st = (Normal tt, st1) /\
    mouseleave_listener fault st1 = (Normal tt, st2) /\
    (obj_cursor <$> heap st1 !! h) = Some "pointer" /\
    heap st2 = heap st /\
    calls st2 = calls st ++ [GetCanvas h; GetCanvas h] /\
    mapError st2 = mapError st /\
    map_current st2 = map_current st /\
    (forall st0 o0, map_current st0 = Some h -> heap st0 !! h = Some o0 ->
       heap (snd (mouseleave_listener fault st0)) !! h = Some (with_cursor "" o0)).
Proof.
  intros Hm Hh Hc Hq.
  do 2 eexists.
  split; [apply (mouseenter_live fault st h Hm (Hq (calls st) (GetCanvas h) eq_refl)) |].
  split; [apply mouseleave_live; [exact Hm | apply Hq; reflexivity] |].
  cbn [heap calls mapError map_current set_heap set_calls].
  split; [rewrite list_lookup_alter_eq, Hh; reflexivity |].
  split.
  { rewrite list_alter_alter_eq.
    apply (alter_fixed _ _ h obj Hh).
    transitivity (with_cursor (obj_cursor obj) obj);
      [rewrite Hc; reflexivity | apply with_cursor_same]. }
  split; [rewrite <- app_assoc; reflexivity |].
  split; [reflexivity |]. split; [reflexivity |].
  intros st0 o0 H0 Ho.
  rewrite (mouseleave_live fault st0 h H0 (Hq (calls st0) (GetCanvas h) eq_refl)).
  cbn [snd heap set_heap]. rewrite list_lookup_alter_eq, Ho. reflexivity.
Qed.

Lemma hover_round_trip_witness :
  exists st1 st2,
    mouseenter_listener no_fault
      (mkState "pk.test" sample_courts (Some (DivElement 0)) (Some 0) None
               [mounted_obj (DivElement 0)] [] [])
    = (Normal tt, st1) /\
    mouseleave_listener no_fault st1 = (Normal tt, st2) /\
    (obj_cursor <$> heap st1 !! 0) = Some "pointer" /\
    heap st2 = [mounted_obj (DivElement 0)] /\
    calls st2 = [] ++ [GetCanvas 0; GetCanvas 0] /\
    mapError st2 = None /\
    map_current st2 = Some 0 /\
    (forall st0 o0, map_current st0 = Some 0 -> heap st0 !! 0 = Some o0 ->
       heap (snd (mouseleave_listener no_fault st0)) !! 0 = Some (with_cursor "" o0)).
Proof.
  apply (hover_round_trip no_fault
           (mkState "pk.test" sample_courts (Some (DivElement 0)) (Some 0) None
                    [mounted_obj (DivElement 0)] [] [])
           0 (mounted_obj (DivElement 0))); try reflexivity.
  intros hist c _. reflexivity.
Defined.

(** ** The token check and the first mount *)

Section TryBodyFacts.

Variable fault : list Call -> Call -> option Exn.

(** However the [try] block ends, it leaves the error state and the
    console alone. *)
Lemma try_body_keeps_mapError (st : State) (div : HTMLDivElement) :
  mapError (snd (try_body fault div st)) = mapError st /\
  console (snd (try_body fault div st)) = console st.
Proof.
  destruct (fault (calls st) (NewMap (mapOptions div))) as [e |] eqn:Hf.
  - rewrite (try_body_constructor_throws fault st div e Hf). split; reflexivity.
  - destruct (try_body_constructor_returns fault st div Hf) as (out & st1 & E & C).
    rewrite E. cbn [snd].
    split; [apply (created_mapError _ _ _ C) | apply (created_console _ _ _ C)].
Qed.

(** Past the guards the effect hands React its destructor, and the error
    state becomes "Failed to initialize map" or stays as it was. *)
Lemma initEffect_try_outcome (st : State) (div : HTMLDivElement) :
  map_current st = None ->
  mapContainer_current st = Some div ->
  accessToken st <> "" ->
  fst (initEffect fault st) = Normal (Some Cleanup) /\
  (mapError (snd (initEffect fault st)) = mapError st \/
   mapError (snd (initEffect fault st)) = Some "Failed to initialize map").
Proof.
  intros Hm Hc Ht. rewrite (initEffect_try fault st div Hm Hc Ht).
  pose proof (try_body_keeps_mapError st div) as [K _].
  destruct (try_body fault div st) as [[[] | e] st1]; cbn [fst snd] in *.
  - split; [reflexivity | left; exact K].
  - split; [reflexivity | right; reflexivity].
Qed.

End TryBodyFacts.

(** X3. On a first mount the missing-token message is stored exactly when
    the environment variable is undefined or the empty string (line 8
    turns both into the empty token); exactly in that case React is
    handed no destructor. *)
Theorem missing_token_iff_env_empty
    (fault : list Call -> Call -> option Exn) (env : option string)
    (courts : FeatureCollection) (div : HTMLDivElement) :
  (accessToken_of_env env = "" <-> (env = None \/ env = Some "")) /\
  (mapError (store (step fault (Mount div)
                      {| store := initial_state env courts; destructor := None |}))
   = Some "Mapbox access token is missing. Please check your environment variables."
   <-> (env = None \/ env = Some "")) /\
  (destructor (step fault (Mount div)
                 {| store := initial_state env courts; destructor := None |}) = None
   <-> (env = None \/ env = Some "")).
Proof.
  destruct env as [s |]; [destruct (String.eqb_spec s "") as [-> | Hs] |].
  - repeat split; intros; try (right; reflexivity); reflexivity.
  - assert (Ha : accessToken_of_env (Some s) = s) by (apply accessToken_present, Hs).
    assert (Hno : ~ (Some s = None \/ Some s = Some "")).
    { intros [H | H]; [discriminate H | injection H as ->; apply Hs; reflexivity]. }
    set (st := set_mapContainer_current (Some div)
                 (new_instance (initial_state (Some s) courts))).
    assert (Ht : accessToken st <> "").
    { change (accessToken_of_env (Some s) <> ""). rewrite Ha. exact Hs. }
    destruct (initEffect_try_outcome fault st div eq_refl eq_refl Ht) as [Hr Hmsg].
    split; [rewrite Ha; split; [intros H; contradiction | intros H; contradiction] |].
    cbn [step store]. fold st.
    destruct (initEffect fault st) as [[d | e] st'] eqn:E; cbn [fst snd] in *;
      [| discriminate Hr].
    injection Hr as ->. cbn [store destructor].
    split; (split; [| intros H; contradiction]).
    + intros H. destruct Hmsg as [K | K]; rewrite K in H; discriminate H.
    + intros H. discriminate H.
  - repeat split; intros; try (left; reflexivity); reflexivity.
Qed.

Section NoToken.

Variable fault : list Call -> Call -> option Exn.

(** Without a token, nothing the host or the widget does gets the
    component to call into the library. *)
Lemma no_token_step (i : Input) (w : Mounted) :
  accessToken (store w) = "" -> heap (store w) = [] -> calls (store w) = [] ->
  map_current (store w) = None ->
  accessToken (store (step fault i w)) = "" /\ heap (store (step fault i w)) = [] /\
  calls (store (step fault i w)) = [] /\ map_current (store (step fault i w)) = None.
Proof.
  intros Ht Hh Hc Hm.
  assert (E : match destructor w with
              | Some Cleanup => snd (cleanup fault (store w))
              | None => store w
              end = store w).
  { destruct (destructor w) as [[] |]; [| reflexivity].
    rewrite (cleanup_null_handle fault (store w) Hm). reflexivity. }
  destruct i as [div | | | h ev]; cbn [step].
  - rewrite (initEffect_no_token fault
               (set_mapContainer_current (Some div) (new_instance (store w)))
               div eq_refl eq_refl Ht).
    cbn. repeat split; assumption.
  - rewrite E. cbn. repeat split; assumption.
  - rewrite E. destruct (mapContainer_current (store w)) as [div |] eqn:Hcont.
    + rewrite (initEffect_no_token fault (store w) div Hm Hcont Ht).
      cbn. repeat split; assumption.
    + rewrite (initEffect_no_container fault (store w) Hcont).
      cbn. repeat split; assumption.
  - unfold fire. rewrite Hh. cbn. repeat split; assumption.
Qed.

Lemma no_token_run (inputs : list Input) (w : Mounted) :
  accessToken (store w) = "" -> heap (store w) = [] -> calls (store w) = [] ->
  map_current (store w) = None ->
  heap (store (run fault inputs w)) = [] /\
  calls (store (run fault inputs w)) = [] /\ map_current (store (run fault inputs w)) = None.
Proof.
  unfold run. revert w.
  induction inputs as [| i inputs IH]; intros w Ht Hh Hc Hm; cbn [fold_left];
    [repeat split; assumption |].
  destruct (no_token_step i w Ht Hh Hc Hm) as (Ht' & Hh' & Hc' & Hm').
  apply IH; assumption.
Qed.

End NoToken.

(** X4. Without a token (variable undefined or empty) the component never
    calls into the widget library: after any sequence of mounts, unmounts
    and widget events from the initial store the call log and the heap
    are empty and the handle is null. *)
Theorem no_token_no_library_call
    (fault : list Call -> Call -> option Exn) (env : option string)
    (courts : FeatureCollection) (inputs : list Input) :
  env = None \/ env = Some "" ->
  calls (store (run fault inputs
                  {| store := initial_state env courts; destructor := None |})) = [] /\
  heap (store (run fault inputs
                 {| store := initial_state env courts; destructor := None |})) = [] /\
  map_current (store (run fault inputs
                        {| store := initial_state env courts; destructor := None |})) = None.
Proof.
  intros Henv.
  assert (Ht : accessToken (initial_state env courts) = "")
    by (destruct Henv as [-> | ->]; reflexivity).
  destruct (no_token_run fault inputs
              {| store := initial_state env courts; destructor := None |}
              Ht eq_refl eq_refl eq_refl) as (Hh & Hc & Hm).
  repeat split; assumption.
Qed.

Lemma no_token_no_library_call_witness :
  calls (store (run no_fault
                  [Mount (DivElement 0); Fire 0 LoadEvent; Unmount; Mount (DivElement 1)]
                  {| store := initial_state (Some "") sample_courts;
                     destructor := None |})) = [] /\
  heap (store (run no_fault
                 [Mount (DivElement 0); Fire 0 LoadEvent; Unmount; Mount (DivElement 1)]
                 {| store := initial_state (Some "") sample_courts;
                    destructor := None |})) = [] /\
  map_current (store (run no_fault
                        [Mount (DivElement 0); Fire 0 LoadEvent; Unmount;
                         Mount (DivElement 1)]
                        {| store := initial_state (Some "") sample_courts;
                           destructor := None |})) = None.
Proof.
  apply (no_token_no_library_call no_fault (Some "") sample_courts
           [Mount (DivElement 0); Fire 0 LoadEvent; Unmount; Mount (DivElement 1)]).
  right. reflexivity.
Defined.

(** ** The load listener has no protective boundary *)

Section LoadFacts.

Variable fault : list Call -> Call -> option Exn.

Lemma load_same_mapError : respects same_mapError (load_listener fault).
Proof.
  apply respects_load_listener; unfold same_mapError; intros;
    try reflexivity; congruence.
Qed.

Lemma load_null_handle (st : State) :
  map_current st = None ->
  load_listener fault st
  = (Normal tt, set_console (console st ++ [ConsoleLog "Map loaded successfully"]) st).
Proof.
  intros Hm. unfold load_listener, console_log, bind, read, modify, ret.
  cbn [map_current set_console]. rewrite Hm. reflexivity.
Qed.

Lemma load_addSource_throws (st : State) (h : Handle) (e : Exn) :
  map_current st = Some h ->
  fault (calls st) (AddSource h "basketball-courts"
                      (courts_source (typedBasketballCourts st))) = Some e ->
  load_listener fault st
  = (Throw e,
     set_calls (calls st ++ [AddSource h "basketball-courts"
                               (courts_source (typedBasketballCourts st))])
       (set_console (console st ++ [ConsoleLog "Map loaded successfully"]) st)).
Proof.
  intros Hm Hf.
  unfold load_listener, addSource, console_log, map_current_deref, libcall,
    bind, read, modify, ret.
  state_simpl. rewrite Hm. cbn beta iota. state_simpl. rewrite Hm.
  cbn beta iota. state_simpl. unfold courts_source in Hf. rewrite Hf. reflexivity.
Qed.

End LoadFacts.

(** X5. The load listener is unprotected.  When [addSource] raises, the
    exception leaves the listener: nothing was registered (the heap is
    untouched), the error state is not set and the view shows what it
    showed before.  In general the load listener never writes the error
    state, however it ends, and with a null handle it only logs. *)
Theorem load_failure_escapes
    (fault : list Call -> Call -> option Exn) (st : State) (h : Handle) (e : Exn) :
  map_current st = Some h ->
  fault (calls st) (AddSource h "basketball-courts"
                      (courts_source (typedBasketballCourts st))) = Some e ->
  exists st',
    load_listener fault st = (Throw e, st') /\
    heap st' = heap st /\
    mapError st' = mapError st /\
    view_banner (render st') = view_banner (render st) /\
    calls st' = calls st ++ [AddSource h "basketball-courts"
                               (courts_source (typedBasketballCourts st))] /\
    (forall st0, mapError (snd (load_listener fault st0)) = mapError st0) /\
    (forall st0, map_current st0 = None ->
       load_listener fault st0
       = (Normal tt,
          set_console (console st0 ++ [ConsoleLog "Map loaded successfully"]) st0)).
Proof.
  intros Hm Hf. eexists. split; [apply (load_addSource_throws fault st h e Hm Hf) |].
  cbn. repeat split.
  - intros st0. apply (load_same_mapError fault st0).
  - intros st0 H0. apply load_null_handle, H0.
Qed.

Lemma load_failure_escapes_witness :
  exists st',
    load_listener addSource_fails
      (mkState "pk.test" sample_courts (Some (DivElement 0)) (Some 0) None
               [mounted_obj (DivElement 0)] [] [])
    = (Throw (Error "source rejected"), st') /\
    heap st' = [mounted_obj (DivElement 0)] /\
    mapError st' = None /\
    view_banner (render st') = None /\
    calls st' = [] ++ [AddSource 0 "basketball-courts" (courts_source sample_courts)] /\
    (forall st0, mapError (snd (load_listener addSource_fails st0)) = mapError st0) /\
    (forall st0, map_current st0 = None ->
       load_listener addSource_fails st0
       = (Normal tt,
          set_console (console st0 ++ [ConsoleLog "Map loaded successfully"]) st0)).
Proof.
  apply (load_failure_escapes addSource_fails
           (mkState "pk.test" sample_courts (Some (DivElement 0)) (Some 0) None
                    [mounted_obj (DivElement 0)] [] [])
           0 (Error "source rejected")); reflexivity.
Defined.

(** ** A mount without exception, and the load that follows *)

(** X6. A run of the effect in which no setup call raises makes exactly
    five calls into the library, in this order: the constructor, the
    registration of the load listener, the registration of the error
    listener, the construction of the navigation control and its
    registration at "top-right".  The new widget holds exactly those two
    listeners and that control; the error state and the console are
    untouched, so a successful mount shows no banner of its own. *)
Theorem mount_makes_five_calls
    (fault : list Call -> Call -> option Exn) (st : State) (div : HTMLDivElement) :
  map_current st = None ->
  mapContainer_current st = Some div ->
  accessToken st <> "" ->
  quiet fault is_setup_call ->
  exists st',
    initEffect fault st = (Normal (Some Cleanup), st') /\
    heap st' = heap st ++ [mounted_obj div] /\
    map_current st' = Some (length (heap st)) /\
    calls st'
    = calls st
      ++ [ NewMap (mapOptions div);
           On (length (heap st))
              {| reg_type := "load"; reg_layer := None; reg_listener := onLoad |};
           On (length (heap st))
              {| reg_type := "error"; reg_layer := None; reg_listener := onError |};
           NewNavigationControl;
           AddControl (length (heap st)) NavigationControl "top-right" ] /\
    mapError st' = mapError st /\
    console st' = console st /\
    view_banner (render st') = view_banner (render st).
Proof.
  intros Hm Hc Ht Hq. rewrite (initEffect_try fault st div Hm Hc Ht).
  unfold try_body, new_Map, on, new_NavigationControl, addControl, update_obj,
    map_current_deref, libcall, bind, read, modify, ret.
  repeat (no_fault_here Hq; state_simpl).
  eexists. split; [reflexivity |]. state_simpl.
  split; [rewrite !alter_snoc; reflexivity |].
  split; [reflexivity |].
  split; [rewrite <- !app_assoc; reflexivity |].
  repeat split.
Qed.

Lemma mount_makes_five_calls_witness :
  exists st',
    initEffect no_fault
      (set_mapContainer_current (Some (DivElement 0))
         (initial_state (Some "pk.test") sample_courts))
    = (Normal (Some Cleanup), st') /\
    heap st' = [] ++ [mounted_obj (DivElement 0)] /\
    map_current st' = Some 0 /\
    calls st'
    = [] ++ [ NewMap (mapOptions (DivElement 0));
              On 0 {| reg_type := "load"; reg_layer := None; reg_listener := onLoad |};
              On 0 {| reg_type := "error"; reg_layer := None; reg_listener := onError |};
              NewNavigationControl;
              AddControl 0 NavigationControl "top-right" ] /\
    mapError st' = None /\
    console st' = [] /\
    view_banner (render st') = None.
Proof.
  apply (mount_makes_five_calls no_fault
           (set_mapContainer_current (Some (DivElement 0))
              (initial_state (Some "pk.test") sample_courts))
           (DivElement 0)); [reflexivity | reflexivity | discriminate |].
  intros hist c _. reflexivity.
Defined.

(** X7. The load listener on a live handle, no registration raising:
    after logging, it makes six calls in this order -- [addSource], the
    circle layer, the label layer, then the click, mouseenter and
    mouseleave registrations -- and the widget gains exactly those three
    listeners, every one scoped to the circle layer's id.  Other widgets,
    the error state and the handle are untouched. *)
Theorem load_registers_layer_listeners
    (fault : list Call -> Call -> option Exn) (st : State) (h : Handle) (obj : MapObj) :
  map_current st = Some h ->
  heap st !! h = Some obj ->
  quiet fault is_overlay_call ->
  exists st' obj',
    load_listener fault st = (Normal tt, st') /\
    heap st' !! h = Some obj' /\
    obj_listeners obj' = obj_listeners obj ++ overlay_listeners /\
    Forall (fun r => reg_layer r = Some (layer_id circleLayer)) overlay_listeners /\
    calls st'
    = calls st
      ++ [ AddSource h "basketball-courts" (courts_source (typedBasketballCourts st));
           AddLayer h circleLayer;
           AddLayer h labelLayer ]
      ++ List.map (On h) overlay_listeners /\
    console st' = console st ++ [ConsoleLog "Map loaded successfully"] /\
    (forall h', h' <> h -> heap st' !! h' = heap st !! h') /\
    mapError st' = mapError st /\
    map_current st' = Some h.
Proof.
  intros Hm Hh Hq.
  unfold load_listener, addSource, addLayer, on, update_obj, console_log,
    map_current_deref, libcall, bind, read, modify, ret.
  state_simpl. rewrite Hm.
  repeat (no_fault_here Hq; state_simpl; rewrite ?Hm).
  do 2 eexists. split; [reflexivity |]. state_simpl.
  split; [rewrite !list_lookup_alter_eq, Hh; reflexivity |].
  cbn [obj_listeners push_source push_layer push_listener].
  split; [rewrite <- !app_assoc; reflexivity |].
  split; [repeat constructor |].
  split; [rewrite <- !app_assoc; reflexivity |].
  split; [reflexivity |].
  split; [intros h' Hne; rewrite !list_lookup_alter_ne by congruence; reflexivity |].
  split; [reflexivity | exact Hm].
Qed.

Lemma load_registers_layer_listeners_witness :
  exists st' obj',
    load_listener no_fault
      (mkState "pk.test" sample_courts (Some (DivElement 0)) (Some 0) None
               [mounted_obj (DivElement 0)] [] [])
    = (Normal tt, st') /\
    heap st' !! 0 = Some obj' /\
    obj_listeners obj' = mounted_listeners ++ overlay_listeners /\
    Forall (fun r => reg_layer r = Some (layer_id circleLayer)) overlay_listeners /\
    calls st'
    = [] ++ [ AddSource 0 "basketball-courts" (courts_source sample_courts);
              AddLayer 0 circleLayer;
              AddLayer 0 labelLayer ]
         ++ List.map (On 0) overlay_listeners /\
    console st' = [] ++ [ConsoleLog "Map loaded successfully"] /\
    (forall h', h' <> 0 -> heap st' !! h' = [mounted_obj (DivElement 0)] !! h') /\
    mapError st' = None /\
    map_current st' = Some 0.
Proof.
  apply (load_registers_layer_listeners no_fault
           (mkState "pk.test" sample_courts (Some (DivElement 0)) (Some 0) None
                    [mounted_obj (DivElement 0)] [] [])
           0 (mounted_obj (DivElement 0))); try reflexivity.
  intros hist c _. reflexivity.
Defined.

(** ** Creation, failure after creation, release, and creation again *)

Section CreationFacts.

Variable fault : list Call -> Call -> option Exn.

(** The effect past its guards with a constructor that returns. *)
Lemma initEffect_creates (st : State) (div : HTMLDivElement) :
  map_current st = None ->
  mapContainer_current st = Some div ->
  accessToken st <> "" ->
  fault (calls st) (NewMap (mapOptions div)) = None ->
  exists st' obj,
    initEffect fault st = (Normal (Some Cleanup), st') /\
    heap st' = heap st ++ [obj] /\
    obj_removed obj = false /\
    map_current st' = Some (length (heap st)) /\
    count_calls is_NewMap (calls st') = S (count_calls is_NewMap (calls st)) /\
    count_calls is_Remove (calls st') = count_calls is_Remove (calls st) /\
    (exists l, calls st' = calls st ++ l).
Proof.
  intros Hm Hc Ht Hf.
  destruct (try_body_constructor_returns fault st div Hf) as (out & st1 & E & C).
  destruct C as [Hh (obj & Hheap & Hlive & _) (rest & Hcalls & Hnew & Hrem) _ _ _ _ _].
  assert (Hcount : count_calls is_NewMap (calls st1) = S (count_calls is_NewMap (calls st))
                   /\ count_calls is_Remove (calls st1) = count_calls is_Remove (calls st)).
  { rewrite Hcalls.
    change (NewMap (mapOptions div) :: rest) with ([NewMap (mapOptions div)] ++ rest).
    rewrite !count_calls_app, Hnew, Hrem. cbn. lia. }
  destruct Hcount as [Hn Hr].
  rewrite (initEffect_try fault st div Hm Hc Ht), E.
  destruct out as [[] | e]; eexists; exists obj; (split; [reflexivity |]); cbn;
    repeat split; try assumption; eexists; exact Hcalls.
Qed.

End CreationFacts.

(** X8. A failure after the constructor does not leak the widget.  When
    the constructor returns and a later setup call raises, the effect
    shows "Failed to initialize map" but keeps the new widget live behind
    the banner, referenced by [map.current], and still hands React the
    destructor; that destructor then releases the widget with exactly one
    [remove] and nulls the handle. *)
Theorem failed_setup_is_released
    (fault : list Call -> Call -> option Exn) (st st1 : State)
    (div : HTMLDivElement) (e : Exn) :
  map_current st = None ->
  mapContainer_current st = Some div ->
  accessToken st <> "" ->
  fault (calls st) (NewMap (mapOptions div)) = None ->
  try_body fault div st = (Throw e, st1) ->
  fault (calls st1) (Remove (length (heap st))) = None ->
  exists st' obj st'',
    initEffect fault st = (Normal (Some Cleanup), st') /\
    map_current st' = Some (length (heap st)) /\
    heap st' = heap st ++ [obj] /\
    obj_removed obj = false /\
    view_banner (render st') = Some "Failed to initialize map" /\
    cleanup fault st' = (Normal tt, st'') /\
    map_current st'' = None /\
    heap st'' = heap st ++ [mark_removed obj] /\
    calls st'' = calls st' ++ [Remove (length (heap st))].
Proof.
  intros Hm Hc Ht Hf E Hr.
  destruct (try_body_constructor_returns fault st div Hf) as (out & st1' & E' & C).
  rewrite E in E'. injection E' as <- <-.
  destruct C as [Hh (obj & Hheap & Hlive & _) _ _ _ _ _ _].
  pose proof (initEffect_try fault st div Hm Hc Ht) as I. rewrite E in I.
  eexists. exists obj. eexists.
  split; [exact I |].
  split; [exact Hh |]. split; [exact Hheap |]. split; [exact Hlive |].
  split; [reflexivity |].
  split; [apply (cleanup_live_handle fault _ (length (heap st))); [exact Hh | exact Hr] |].
  cbn [map_current heap calls set_map_current set_heap set_calls set_mapError set_console].
  split; [reflexivity |].
  split; [rewrite Hheap; apply alter_snoc | reflexivity].
Qed.

Lemma failed_setup_is_released_witness :
  exists st' obj st'',
    initEffect addControl_fails
      (set_mapContainer_current (Some (DivElement 0))
         (initial_state (Some "pk.test") sample_courts))
    = (Normal (Some Cleanup), st') /\
    map_current st' = Some 0 /\
    heap st' = [] ++ [obj] /\
    obj_removed obj = false /\
    view_banner (render st') = Some "Failed to initialize map" /\
    cleanup addControl_fails st' = (Normal tt, st'') /\
    map_current st'' = None /\
    heap st'' = [] ++ [mark_removed obj] /\
    calls st'' = calls st' ++ [Remove 0].
Proof.
  apply (failed_setup_is_released addControl_fails
           (set_mapContainer_current (Some (DivElement 0))
              (initial_state (Some "pk.test") sample_courts))
           (snd (try_body addControl_fails (DivElement 0)
                   (set_mapContainer_current (Some (DivElement 0))
                      (initial_state (Some "pk.test") sample_courts))))
           (DivElement 0) (Error "control rejected"));
    [reflexivity | reflexivity | discriminate | reflexivity | reflexivity | reflexivity].
Defined.

(** X9. After a release the effect creates again.  On a store with a live
    handle, the cleanup followed by a new run of the effect (both [remove]
    and the constructor returning) leaves the old widget removed and a
    fresh one live at a new handle, referenced by [map.current]: one more
    [remove] and one more constructor call, never a reuse of the removed
    widget. *)
Theorem remount_creates_fresh_widget
    (fault : list Call -> Call -> option Exn) (st : State) (h : Handle) (obj : MapObj)
    (div : HTMLDivElement) :
  map_current st = Some h ->
  heap st !! h = Some obj ->
  mapContainer_current st = Some div ->
  accessToken st <> "" ->
  fault (calls st) (Remove h) = None ->
  fault (calls st ++ [Remove h]) (NewMap (mapOptions div)) = None ->
  exists st1 st2 obj2,
    cleanup fault st = (Normal tt, st1) /\
    initEffect fault st1 = (Normal (Some Cleanup), st2) /\
    map_current st2 = Some (length (heap st)) /\
    length (heap st) <> h /\
    heap st2 !! h = Some (mark_removed obj) /\
    heap st2 !! length (heap st) = Some obj2 /\
    obj_removed obj2 = false /\
    count_calls is_NewMap (calls st2) = S (count_calls is_NewMap (calls st)) /\
    count_calls is_Remove (calls st2) = S (count_calls is_Remove (calls st)).
Proof.
  intros Hm Hh Hc Ht Hr Hn.
  pose proof (cleanup_live_handle fault st h Hm Hr) as E1.
  set (st1 := set_map_current None
                (set_heap (alter mark_removed h (heap st))
                   (set_calls (calls st ++ [Remove h]) st))) in *.
  destruct (initEffect_creates fault st1 div eq_refl Hc Ht Hn)
    as (st2 & obj2 & E2 & Hheap & Hlive & Hcur & Hcn & Hcr & _).
  cbn [heap calls st1 set_map_current set_heap set_calls] in Hheap, Hcur, Hcn, Hcr.
  rewrite length_alter in Hcur.
  pose proof (lookup_lt_Some _ _ _ Hh) as Hlt.
  exists st1, st2, obj2.
  split; [exact E1 |]. split; [exact E2 |]. split; [exact Hcur |].
  split; [lia |].
  split.
  { rewrite Hheap, lookup_app_l by (rewrite length_alter; exact Hlt).
    rewrite list_lookup_alter_eq, Hh. reflexivity. }
  split.
  { rewrite Hheap. rewrite <- (length_alter mark_removed (heap st) h).
    apply list_lookup_middle. reflexivity. }
  split; [exact Hlive |].
  rewrite Hcn, Hcr, !count_calls_app. cbn. split; lia.
Qed.

Lemma remount_creates_fresh_widget_witness :
  exists st1 st2 obj2,
    cleanup no_fault
      (mkState "pk.test" sample_courts (Some (DivElement 0)) (Some 0) None
               [mounted_obj (DivElement 0)] [] [])
    = (Normal tt, st1) /\
    initEffect no_fault st1 = (Normal (Some Cleanup), st2) /\
    map_current st2 = Some 1 /\
    1 <> 0 /\
    heap st2 !! 0 = Some (mark_removed (mounted_obj (DivElement 0))) /\
    heap st2 !! 1 = Some obj2 /\
    obj_removed obj2 = false /\
    count_calls is_NewMap (calls st2) = 1 /\
    count_calls is_Remove (calls st2) = 1.
Proof.
  apply (remount_creates_fresh_widget no_fault
           (mkState "pk.test" sample_courts (Some (DivElement 0)) (Some 0) None
                    [mounted_obj (DivElement 0)] [] [])
           0 (mounted_obj (DivElement 0)) (DivElement 0));
    [reflexivity | reflexivity | reflexivity | discriminate | reflexivity | reflexivity].
Defined.

(** ** Invariants of whole runs *)

Lemma run_app (fault : list Call -> Call -> option Exn) (a b : list Input) (w : Mounted) :
  run fault (a ++ b) w = run fault b (run fault a w).
Proof. unfold run. apply fold_left_app. Qed.

Lemma error_step_refl (st : State) : error_step st st.
Proof. left. reflexivity. Qed.

Lemma error_step_trans (st1 st2 st3 : State) :
  error_step st1 st2 -> error_step st2 st3 -> error_step st1 st3.
Proof.
  intros [H12 | H12] [H23 | H23].
  - left. congruence.
  - right. exact H23.
  - right. rewrite H23. exact H12.
  - right. exact H23.
Qed.

Lemma error_step_known (st st' : State) :
  error_step st st' -> known_error (mapError st) -> known_error (mapError st').
Proof.
  intros [H | (m & H & Hin)] K; rewrite H; [exact K | exact Hin].
Qed.

Lemma error_message_truthy (m : string) : In m error_messages -> truthy m = true.
Proof.
  intros [<- | [<- | [<- | []]]]; reflexivity.
Qed.

Lemma error_step_banner (st st' : State) :
  error_step st st' ->
  is_Some (view_banner (render st)) -> is_Some (view_banner (render st')).
Proof.
  unfold render. cbn [view_banner].
  intros [H | (m & H & Hin)] K; rewrite H; [exact K |].
  rewrite (error_message_truthy m Hin). eauto.
Qed.

Section RunInvariants.

Variable fault : list Call -> Call -> option Exn.

Ltac error_frame :=
  first [ apply error_step_refl
        | apply error_step_trans
        | intros; left; reflexivity ].

Lemma call_listener_error_step (l : Listener) (ev : MapEvent) :
  respects error_step (call_listener fault l ev).
Proof.
  destruct l, ev; cbn [call_listener]; try (intros st; apply error_step_refl).
  - apply respects_load_listener; error_frame.
  - apply respects_click_listener; error_frame.
  - apply respects_mouseenter_listener; error_frame.
  - apply respects_mouseleave_listener; error_frame.
  - intros st. right. exists "Error loading map". split; [reflexivity |].
    cbn. tauto.
Qed.

Lemma run_listeners_error_step (rs : list Registration) (ev : MapEvent) :
  respects error_step (run_listeners fault rs ev).
Proof.
  induction rs as [| r rs IH]; cbn [run_listeners]; [intros st; apply error_step_refl |].
  apply respects_bind; [apply error_step_trans | |].
  - destruct (registered_for r ev);
      [apply call_listener_error_step | intros st; apply error_step_refl].
  - intros _. exact IH.
Qed.

Lemma fire_error_step (h : Handle) (ev : MapEvent) :
  respects error_step (fire fault h ev).
Proof.
  intros st. unfold fire. destruct (heap st !! h) as [o |]; [| apply error_step_refl].
  destruct (obj_removed o); [apply error_step_refl | apply run_listeners_error_step].
Qed.

Lemma initEffect_error_step : respects error_step (initEffect fault).
Proof.
  intros st.
  destruct (map_current st) as [h |] eqn:Hm.
  { rewrite (initEffect_live_handle fault st h Hm). apply error_step_refl. }
  destruct (mapContainer_current st) as [div |] eqn:Hc.
  2:{ rewrite (initEffect_no_container fault st Hc). apply error_step_refl. }
  destruct (String.eqb_spec (accessToken st) "") as [Ht | Ht].
  { rewrite (initEffect_no_token fault st div Hm Hc Ht). right.
    eexists. split; [reflexivity |]. cbn. tauto. }
  destruct (initEffect_try_outcome fault st div Hm Hc Ht) as [_ [K | K]].
  - left. exact K.
  - right. eexists. split; [exact K |]. cbn. tauto.
Qed.

Lemma cleanup_error_step : respects error_step (cleanup fault).
Proof.
  intros st. left.
  destruct (cleanup_cases fault st) as [E | [(h & e & E) | (h & _ & E)]];
    rewrite E; reflexivity.
Qed.

(** What the kept destructor leaves, as [Unmount] and [Rerun] use it. *)
Lemma destructor_error_step (w : Mounted) :
  error_step (store w)
    (match destructor w with
     | Some Cleanup => snd (cleanup fault (store w))
     | None => store w
     end).
Proof.
  destruct (destructor w) as [[] |]; [apply cleanup_error_step | apply error_step_refl].
Qed.

(** Within one instance every step keeps the error or replaces it by one
    of the three messages. *)
Lemma step_error_step (i : Input) (w : Mounted) :
  within_instance i -> error_step (store w) (store (step fault i w)).
Proof.
  destruct i as [div | | | h ev]; cbn [within_instance step]; intros Hi;
    try contradiction.
  - eapply error_step_trans; [apply destructor_error_step |].
    set (st := match destructor w with
               | Some Cleanup => snd (cleanup fault (store w))
               | None => store w
               end).
    pose proof (initEffect_error_step st) as H.
    destruct (initEffect fault st) as [[d | e] st1]; exact H.
  - apply fire_error_step.
Qed.

Lemma run_error_step (inputs : list Input) (w : Mounted) :
  Forall within_instance inputs ->
  error_step (store w) (store (run fault inputs w)).
Proof.
  unfold run. revert w.
  induction inputs as [| i inputs IH]; intros w Hall; cbn [fold_left];
    [apply error_step_refl |].
  inversion Hall as [| ? ? Hi Hrest]; subst.
  eapply error_step_trans; [apply (step_error_step i w Hi) | apply IH, Hrest].
Qed.

(** Across instances the error state stays null or one of the three
    messages: a new instance starts from null. *)
Lemma step_known_error (i : Input) (w : Mounted) :
  known_error (mapError (store w)) -> known_error (mapError (store (step fault i w))).
Proof.
  intros K. destruct i as [div | | | h ev].
  - cbn [step].
    pose proof (initEffect_error_step
                  (set_mapContainer_current (Some div) (new_instance (store w)))) as H.
    destruct (initEffect fault
                (set_mapContainer_current (Some div) (new_instance (store w))))
      as [[d | e] st1]; cbn [store snd] in *;
      apply (error_step_known _ _ H); exact I.
  - cbn [step store].
    apply (error_step_known _ _ (destructor_error_step w) K).
  - apply (error_step_known _ _ (step_error_step Rerun w I) K).
  - apply (error_step_known _ _ (step_error_step (Fire h ev) w I) K).
Qed.

Lemma run_known_error (inputs : list Input) (w : Mounted) :
  known_error (mapError (store w)) -> known_error (mapError (store (run fault inputs w))).
Proof.
  unfold run. revert w.
  induction inputs as [| i inputs IH]; intros w K; cbn [fold_left]; [exact K |].
  apply IH, step_known_error, K.
Qed.

(** Liveness of the handle. *)
Lemma same_liveness_handle_is_live (st st' : State) :
  same_liveness st st' -> handle_is_live st -> handle_is_live st'.
Proof.
  intros [Hm Hh] I h Hcur. rewrite Hm in Hcur.
  destruct (I h Hcur) as (o & Ho & Hr). specialize (Hh h). rewrite Ho in Hh.
  destruct (heap st' !! h) as [o' |]; [| discriminate Hh].
  exists o'. split; [reflexivity |]. cbn in Hh. congruence.
Qed.

Lemma initEffect_handle_is_live (st : State) :
  handle_is_live st -> handle_is_live (snd (initEffect fault st)).
Proof.
  intros I.
  destruct (initEffect_cases fault st)
    as [E | [(_ & v & E) | [(_ & v & c & l & E) | (Hm & div & st1 & st' & E & C & S)]]];
    rewrite E; cbn [snd]; try exact I.
  assert (I1 : handle_is_live st1).
  { destruct C as [Hh (obj & Hheap & Hlive & _) _ _ _ _ _ _].
    intros h Hcur. rewrite Hh in Hcur. injection Hcur as <-.
    exists obj. split; [rewrite Hheap; apply list_lookup_middle; reflexivity | exact Hlive]. }
  destruct S as [-> | (v & c & ->)]; exact I1.
Qed.

Lemma cleanup_handle_is_live (st : State) :
  handle_is_live st -> handle_is_live (snd (cleanup fault st)).
Proof.
  intros I.
  destruct (cleanup_cases fault st) as [E | [(h & e & E) | (h & Hm & E)]];
    rewrite E; cbn [snd]; try exact I.
  intros h' Hcur. discriminate Hcur.
Qed.

Lemma destructor_handle_is_live (w : Mounted) :
  handle_is_live (store w) ->
  handle_is_live
    (match destructor w with
     | Some Cleanup => snd (cleanup fault (store w))
     | None => store w
     end).
Proof.
  intros I. destruct (destructor w) as [[] |]; [| exact I].
  exact (cleanup_handle_is_live (store w) I).
Qed.

Lemma step_handle_is_live (i : Input) (w : Mounted) :
  handle_is_live (store w) -> handle_is_live (store (step fault i w)).
Proof.
  intros I. destruct i as [div | | | h ev]; cbn [step].
  - assert (I0 : handle_is_live
                   (set_mapContainer_current (Some div) (new_instance (store w))))
      by (intros h Hcur; discriminate Hcur).
    pose proof (initEffect_handle_is_live _ I0) as H.
    destruct (initEffect fault
                (set_mapContainer_current (Some div) (new_instance (store w))))
      as [[d | e] st1]; exact H.
  - exact (destructor_handle_is_live w I).
  - pose proof (initEffect_handle_is_live _ (destructor_handle_is_live w I)) as H.
    destruct (initEffect fault _) as [[d | e] st1]; exact H.
  - eapply same_liveness_handle_is_live; [apply fire_same_liveness | exact I].
Qed.

Lemma run_handle_is_live (inputs : list Input) (w : Mounted) :
  handle_is_live (store w) -> handle_is_live (store (run fault inputs w)).
Proof.
  unfold run. revert w.
  induction inputs as [| i inputs IH]; intros w I; cbn [fold_left]; [exact I |].
  apply IH, step_handle_is_live, I.
Qed.

(** After a mount every live widget is the one of the new instance,
    provided none was live before; events keep it so. *)
Lemma mount_live_is_current (div : HTMLDivElement) (w : Mounted) :
  all_removed (store w) -> live_is_current (store (step fault (Mount div) w)).
Proof.
  intros A. cbn [step].
  assert (I0 : live_is_current
                 (set_mapContainer_current (Some div) (new_instance (store w)))).
  { intros h o Hl Hr. rewrite (A h o Hl) in Hr. discriminate Hr. }
  pose proof (initEffect_live_is_current fault _ I0) as H.
  destruct (initEffect fault
              (set_mapContainer_current (Some div) (new_instance (store w))))
    as [[d | e] st1]; exact H.
Qed.

Lemma fires_live_is_current (evs : list (Handle * MapEvent)) (w : Mounted) :
  live_is_current (store w) -> live_is_current (store (run fault (fires evs) w)).
Proof.
  unfold run. revert w.
  induction evs as [| [h ev] evs IH]; intros w I; cbn [fires List.map fold_left];
    [exact I |].
  apply IH. cbn [step store fst snd].
  eapply same_liveness_live_is_current; [apply fire_same_liveness | exact I].
Qed.

(** The destructor React holds covers the widget. *)
Lemma mount_destructor_covers (div : HTMLDivElement) (w : Mounted) :
  destructor_covers (step fault (Mount div) w).
Proof.
  intros h. cbn [step].
  set (st := set_mapContainer_current (Some div) (new_instance (store w))).
  assert (Hm' : map_current st = None) by reflexivity.
  destruct (initEffect_cases fault st)
    as [E | [(_ & v & E) | [(_ & v & c & l & E) | (_ & d & st1 & st' & E & C & S)]]];
    rewrite E; cbn [store destructor map_current set_mapError set_console set_calls];
    try (rewrite Hm'; intros H; discriminate H); reflexivity.
Qed.

Lemma fires_destructor_covers (evs : list (Handle * MapEvent)) (w : Mounted) :
  destructor_covers w -> destructor_covers (run fault (fires evs) w).
Proof.
  unfold run. revert w.
  induction evs as [| [h ev] evs IH]; intros w I; cbn [fires List.map fold_left];
    [exact I |].
  apply IH. intros h' Hcur.
  change (map_current (snd (fire fault h ev (store w))) = Some h') in Hcur.
  destruct (fire_same_liveness fault h ev (store w)) as [Hm _].
  rewrite Hm in Hcur. exact (I h' Hcur).
Qed.

Lemma unmount_releases (w : Mounted) :
  quiet fault is_Remove ->
  live_is_current (store w) -> destructor_covers w ->
  map_current (store (step fault Unmount w)) = None /\
  all_removed (store (step fault Unmount w)).
Proof.
  intros Hq I J. cbn [step store].
  destruct (map_current (store w)) as [h |] eqn:Hm.
  - rewrite (J h Hm).
    rewrite (cleanup_live_handle fault (store w) h Hm (Hq _ (Remove h) eq_refl)).
    cbn. split; [reflexivity |].
    intros h' o Hl. cbn in Hl.
    destruct (decide (h = h')) as [<- | Hne].
    + rewrite list_lookup_alter_eq in Hl.
      destruct (heap (store w) !! h) as [o0 |]; cbn in Hl; [| discriminate Hl].
      injection Hl as <-. reflexivity.
    + rewrite list_lookup_alter_ne in Hl by exact Hne.
      destruct (obj_removed o) eqn:Hr; [reflexivity |].
      pose proof (I h' o Hl Hr) as Hcur. congruence.
  - assert (E : cleanup fault (store w) = (Normal tt, store w))
      by (apply cleanup_null_handle, Hm).
    assert (A : all_removed (store w)).
    { intros h' o Hl. destruct (obj_removed o) eqn:Hr; [reflexivity |].
      pose proof (I h' o Hl Hr) as Hcur. congruence. }
    destruct (destructor w) as [[] |]; [rewrite E |]; cbn; split; assumption.
Qed.

End RunInvariants.

(** X10. No widget outlives its component.  From the initial store, a
    mount, then any widget events, then the unmount: provided [remove]
    returns, the handle ends null and every widget object that was ever
    created has been removed -- whatever the token, and whether or not
    setup, load or any listener raised on the way. *)
Theorem unmount_leaves_no_live_widget
    (fault : list Call -> Call -> option Exn) (env : option string)
    (courts : FeatureCollection) (div : HTMLDivElement)
    (evs : list (Handle * MapEvent)) :
  quiet fault is_Remove ->
  map_current
    (store (run fault (Mount div :: fires evs ++ [Unmount])
              {| store := initial_state env courts; destructor := None |})) = None /\
  all_removed
    (store (run fault (Mount div :: fires evs ++ [Unmount])
              {| store := initial_state env courts; destructor := None |})).
Proof.
  intros Hq.
  change (Mount div :: fires evs ++ [Unmount])
    with ([Mount div] ++ fires evs ++ [Unmount]).
  rewrite !run_app.
  set (w0 := {| store := initial_state env courts; destructor := None |}).
  assert (A0 : all_removed (store w0)) by (intros h o Hl; discriminate Hl).
  assert (I1 : live_is_current (store (run fault [Mount div] w0)))
    by (apply (mount_live_is_current fault div w0 A0)).
  assert (J1 : destructor_covers (run fault [Mount div] w0))
    by (apply (mount_destructor_covers fault div w0)).
  apply (unmount_releases fault _ Hq).
  - apply fires_live_is_current, I1.
  - apply fires_destructor_covers, J1.
Qed.

Lemma unmount_leaves_no_live_widget_witness :
  map_current
    (store (run addControl_fails
              (Mount (DivElement 0)
               :: fires [(0, LoadEvent); (0, ErrorEvent (Error "tile failed"))]
               ++ [Unmount])
              {| store := initial_state (Some "pk.test") sample_courts;
                 destructor := None |})) = None /\
  all_removed
    (store (run addControl_fails
              (Mount (DivElement 0)
               :: fires [(0, LoadEvent); (0, ErrorEvent (Error "tile failed"))]
               ++ [Unmount])
              {| store := initial_state (Some "pk.test") sample_courts;
                 destructor := None |})).
Proof.
  apply (unmount_leaves_no_live_widget addControl_fails (Some "pk.test") sample_courts
           (DivElement 0) [(0, LoadEvent); (0, ErrorEvent (Error "tile failed"))]).
  intros hist c Hc. destruct c; try discriminate Hc; reflexivity.
Defined.

(** X11. The error state only ever holds null or one of the three fixed
    messages of the source: after any sequence of mounts, unmounts and
    widget events from the initial store, whatever the library raises, no
    text of an exception or of the data reaches the banner. *)
Theorem error_state_is_one_of_three
    (fault : list Call -> Call -> option Exn) (env : option string)
    (courts : FeatureCollection) (inputs : list Input) :
  known_error
    (mapError (store (run fault inputs
                        {| store := initial_state env courts; destructor := None |}))) /\
  (view_banner (render (store (run fault inputs
                  {| store := initial_state env courts; destructor := None |}))) = None
   \/ exists m,
        In m error_messages /\
        view_banner (render (store (run fault inputs
                  {| store := initial_state env courts; destructor := None |}))) = Some m).
Proof.
  assert (K : known_error
    (mapError (store (run fault inputs
                        {| store := initial_state env courts; destructor := None |})))).
  { apply run_known_error. exact I. }
  split; [exact K |].
  unfold render. cbn [view_banner]. unfold known_error in K.
  destruct (mapError _) as [m |]; [| left; reflexivity].
  right. exists m. rewrite (error_message_truthy m K). split; [exact K | reflexivity].
Qed.

(** X12. Within one instance an error is never cleared.  From any store
    whose view shows a banner, after any widget events and any re-runs of
    the effect on that same instance (its destructor, then the effect
    again, state and refs kept) the view still shows a banner: the same
    text, or one of the three messages.  In particular a re-run whose
    creation succeeds does not take the banner of an earlier failure
    away.  (A real unmount discards the instance, and the next mount
    starts from [useState(null)]: that is outside this statement.) *)
Theorem banner_is_never_cleared
    (fault : list Call -> Call -> option Exn) (w : Mounted)
    (inputs : list Input) (msg : string) :
  view_banner (render (store w)) = Some msg ->
  Forall within_instance inputs ->
  exists msg',
    view_banner (render (store (run fault inputs w))) = Some msg' /\
    (msg' = msg \/ In msg' error_messages).
Proof.
  intros Hb Hall.
  pose proof (run_error_step fault inputs w Hall) as E.
  assert (Hm : mapError (store w) = Some msg).
  { unfold render in Hb. cbn [view_banner] in Hb.
    destruct (mapError (store w)) as [m |]; [| discriminate Hb].
    destruct (truthy m); [congruence | discriminate Hb]. }
  unfold render in *. cbn [view_banner] in *.
  destruct E as [E | (m & E & Hin)]; rewrite E.
  - rewrite Hm in *. exists msg. split; [exact Hb | left; reflexivity].
  - exists m. rewrite (error_message_truthy m Hin). split; [reflexivity | right; exact Hin].
Qed.

(** A first mount whose constructor fails, then a re-run of the effect on
    the same instance whose constructor succeeds, then the load event:
    the map is created and the banner of the failure is still shown. *)
Lemma banner_is_never_cleared_witness :
  exists msg',
    view_banner
      (render (store (run no_fault [Rerun; Fire 0 LoadEvent]
                        (step constructor_fails (Mount (DivElement 0))
                           {| store := initial_state (Some "pk.test") sample_courts;
                              destructor := None |}))))
    = Some msg' /\
    (msg' = "Failed to initialize map" \/ In msg' error_messages).
Proof.
  apply (banner_is_never_cleared no_fault
           (step constructor_fails (Mount (DivElement 0))
              {| store := initial_state (Some "pk.test") sample_courts;
                 destructor := None |})
           [Rerun; Fire 0 LoadEvent] "Failed to initialize map").
  - reflexivity.
  - repeat constructor.
Defined.

(** X13. No dangling handle.  After any sequence of mounts, unmounts and
    widget events from the initial store, whatever the library raises,
    [map.current] is null or refers to a widget object that exists and
    has not been removed. *)
Theorem handle_never_dangles
    (fault : list Call -> Call -> option Exn) (env : option string)
    (courts : FeatureCollection) (inputs : list Input) :
  handle_is_live
    (store (run fault inputs {| store := initial_state env courts; destructor := None |})).
Proof.
  apply run_handle_is_live. intros h Hcur. discriminate Hcur.
Qed.

(** X14. Widget events never touch the life cycle.  Dispatching any event
    to any widget -- whichever listeners run and whether or not they
    raise -- leaves [map.current], the container ref, the token and the
    number of widget objects as they were, and removes no widget: only
    the effect creates and only the cleanup releases. *)
Theorem events_keep_lifecycle
    (fault : list Call -> Call -> option Exn) (h : Handle) (ev : MapEvent) (st : State) :
  map_current (snd (fire fault h ev st)) = map_current st /\
  mapContainer_current (snd (fire fault h ev st)) = mapContainer_current st /\
  accessToken (snd (fire fault h ev st)) = accessToken st /\
  length (heap (snd (fire fault h ev st))) = length (heap st) /\
  (forall h', obj_removed <$> heap (snd (fire fault h ev st)) !! h'
              = obj_removed <$> heap st !! h').
Proof.
  assert (L : same_lifecycle st (snd (fire fault h ev st))).
  { apply respects_fire.
    - intros s. repeat split.
    - intros s1 s2 s3 ([A1 B1] & C1 & D1 & E1) ([A2 B2] & C2 & D2 & E2).
      split; [split; [congruence | intros h'; rewrite B2, B1; reflexivity] |].
      repeat split; congruence.
    - intros s v. repeat split.
    - intros s v. repeat split.
    - intros s v. repeat split.
    - intros s h0 f Hf. split; [apply same_liveness_alter, Hf |].
      cbn. rewrite length_alter. repeat split. }
  destruct L as ([A B] & C & D & E). repeat split; assumption.
Qed.

(** ** What a click takes from its event *)

(** X15. A click uses the first feature only and takes its coordinate as
    it is.  On a live handle with the popup calls returning, whatever
    further features the event carries and however many numbers the
    coordinate array holds, the listener makes the four popup calls in
    the order of the chain and appends exactly one popup to the current
    widget: anchored at a copy of the first feature's coordinate array,
    showing the template filled from the first feature's properties
    (the hoop count being a safe integer, by the type of [hoops]).
    Earlier popups, sources, layers, listeners and the cursor stay. *)
Theorem click_uses_first_feature
    (fault : list Call -> Call -> option Exn) (st : State)
    (f : Feature) (fs : list Feature) (h : Handle) (obj : MapObj) :
  map_current st = Some h ->
  heap st !! h = Some obj ->
  quiet fault is_popup_call ->
  exists st' obj',
    click_listener fault {| e_features := Some (f :: fs) |} st = (Normal tt, st') /\
    click_listener fault {| e_features := Some [f] |} st = (Normal tt, st') /\
    heap st' !! h = Some obj' /\
    obj_popups obj'
    = obj_popups obj
      ++ [ {| popup_lngLat := Some (coordinates (geometry f));
              popup_html := Some (popupContent (properties f)) |} ] /\
    obj_sources obj' = obj_sources obj /\
    obj_layers obj' = obj_layers obj /\
    obj_listeners obj' = obj_listeners obj /\
    obj_cursor obj' = obj_cursor obj /\
    calls st'
    = calls st
      ++ [ NewPopup;
           SetLngLat {| popup_lngLat := None; popup_html := None |}
                     (coordinates (geometry f));
           SetHTML {| popup_lngLat := Some (coordinates (geometry f));
                      popup_html := None |}
                   (popupContent (properties f));
           AddTo {| popup_lngLat := Some (coordinates (geometry f));
                    popup_html := Some (popupContent (properties f)) |} h ].
Proof.
  intros Hm Hh Hq.
  unfold click_listener, new_Popup, setLngLat, setHTML, addTo, update_obj,
    map_current_deref, libcall, bind, read, modify, ret.
  cbn [e_features]. rewrite Hm, slice_all. state_simpl.
  no_fault_here Hq. state_simpl. rewrite Hm. no_fault_here Hq. state_simpl.
  do 2 eexists. split; [reflexivity |]. split; [reflexivity |]. state_simpl.
  split; [rewrite list_lookup_alter_eq, Hh; reflexivity |].
  cbn. split; [reflexivity |].
  repeat (split; [reflexivity |]).
  rewrite <- !app_assoc. reflexivity.
Qed.

(** Two overlapping courts under the pointer, the first with an altitude
    in its coordinate. *)
Lemma click_uses_first_feature_witness :
  exists st' obj',
    click_listener no_fault
      {| e_features :=
           Some ({| geometry := {| coordinates := [139.7%Q; 35.66%Q; 40%Q] |};
                    properties := BasketballCourtProperties.mk
                      "court-b" "Court B" "" "indoor" no_hoop "wood" |}
                 :: features sample_courts) |}
      (mkState "pk.test" sample_courts (Some (DivElement 0)) (Some 0) None
               [mounted_obj (DivElement 0)] [] [])
    = (Normal tt, st') /\
    click_listener no_fault
      {| e_features :=
           Some [ {| geometry := {| coordinates := [139.7%Q; 35.66%Q; 40%Q] |};
                     properties := BasketballCourtProperties.mk
                       "court-b" "Court B" "" "indoor" no_hoop "wood" |} ] |}
      (mkState "pk.test" sample_courts (Some (DivElement 0)) (Some 0) None
               [mounted_obj (DivElement 0)] [] [])
    = (Normal tt, st') /\
    heap st' !! 0 = Some obj' /\
    obj_popups obj'
    = [] ++ [ {| popup_lngLat := Some [139.7%Q; 35.66%Q; 40%Q];
                 popup_html := Some (popupContent
                   (BasketballCourtProperties.mk
                      "court-b" "Court B" "" "indoor" no_hoop "wood")) |} ] /\
    obj_sources obj' = [] /\
    obj_layers obj' = [] /\
    obj_listeners obj' = mounted_listeners /\
    obj_cursor obj' = "" /\
    calls st'
    = [] ++ [ NewPopup;
              SetLngLat {| popup_lngLat := None; popup_html := None |}
                        [139.7%Q; 35.66%Q; 40%Q];
              SetHTML {| popup_lngLat := Some [139.7%Q; 35.66%Q; 40%Q];
                         popup_html := None |}
                      (popupContent (BasketballCourtProperties.mk
                         "court-b" "Court B" "" "indoor" no_hoop "wood"));
              AddTo {| popup_lngLat := Some [139.7%Q; 35.66%Q; 40%Q];
                       popup_html := Some (popupContent
                         (BasketballCourtProperties.mk
                            "court-b" "Court B" "" "indoor" no_hoop "wood")) |} 0 ].
Proof.
  apply (click_uses_first_feature no_fault
           (mkState "pk.test" sample_courts (Some (DivElement 0)) (Some 0) None
                    [mounted_obj (DivElement 0)] [] [])
           {| geometry := {| coordinates := [139.7%Q; 35.66%Q; 40%Q] |};
              properties := BasketballCourtProperties.mk
                "court-b" "Court B" "" "indoor" no_hoop "wood" |}
           (features sample_courts) 0 (mounted_obj (DivElement 0)));
    try reflexivity.
  intros hist c _. reflexivity.
Defined.
